(** * CompactMapper: LAS codec, key extraction and CSV grouping

    A shallow embedding of the Go sources of compactmapper:
    - [las/writer.go]  : [Writer], [NewWriter], [AddPoint], [Write]
    - [las/reader.go]  : [Header], [Reader], [NewReader], [readHeader],
                         [GetHeader], [ReadPoints], [readPointsFormat2],
                         [readPointsFormat3]
    - [sorter]         : [parseDate], [normalizeAmp], [generateFilename],
                         [sanitizeFilename], [processChunk], [SortCSV]
    - [converter]      : [determineColor], [ConvertCSVToLAS],
                         [ConvertDirectory] (with [strconv.Atoi])

    Go's [float64] values are modelled by their 64-bit patterns
    ([math.Float64bits]); arithmetic on them goes through the IEEE-754
    specification of the Standard Library ([SpecFloat]) with binary64
    parameters and round-to-nearest-even, as Go does on amd64. *)

From Stdlib Require Import ZArith Lia List Bool Ascii String.
From Stdlib Require Import Floats.SpecFloat.
From stdpp Require Import base gmap strings list.

Import ListNotations.
Open Scope Z_scope.

(* ------------------------------------------------------------------ *)
(** ** float64 as bit patterns *)

Module F64.

Definition prec : Z := 53.
Definition emax : Z := 1024.

(** A float64 value, as the 64-bit pattern [math.Float64bits] returns. *)
Definition t := Z.

(** Decoding of a bit pattern (sign, 11-bit biased exponent, 52-bit
    fraction). All NaN payloads decode to the one NaN of [spec_float]. *)
Definition to_sf (b : t) : spec_float :=
  let s := Z.testbit b 63 in
  let e := Z.land (Z.shiftr b 52) 2047 in
  let m := Z.land b (2 ^ 52 - 1) in
  if e =? 2047 then (if m =? 0 then S754_infinity s else S754_nan)
  else if e =? 0 then (if m =? 0 then S754_zero s else S754_finite s (Z.to_pos m) (-1074))
  else S754_finite s (Z.to_pos (m + 2 ^ 52)) (e - 1075).

Definition sign_bit (s : bool) : Z := if s then 2 ^ 63 else 0.

(** Encoding of a canonical [spec_float]. A NaN produced by arithmetic is
    the x86-64 default NaN 0xFFF8000000000000. *)
Definition of_sf (f : spec_float) : t :=
  match f with
  | S754_zero s => sign_bit s
  | S754_infinity s => sign_bit s + 2047 * 2 ^ 52
  | S754_nan => 18444492273895866368
  | S754_finite s m e =>
      sign_bit s +
      (if Zpos m <? 2 ^ 52 then Zpos m else (e + 1075) * 2 ^ 52 + (Zpos m - 2 ^ 52))
  end.

Definition sub (a b : t) : t := of_sf (SFsub prec emax (to_sf a) (to_sf b)).
Definition add (a b : t) : t := of_sf (SFadd prec emax (to_sf a) (to_sf b)).
Definition mul (a b : t) : t := of_sf (SFmul prec emax (to_sf a) (to_sf b)).
Definition div (a b : t) : t := of_sf (SFdiv prec emax (to_sf a) (to_sf b)).

(** Go's [<] and [>] on float64 (false as soon as a NaN is involved). *)
Definition lt (a b : t) : bool := SFltb (to_sf a) (to_sf b).

(** [float64(n)] for an integer [n] (exact for every int32). *)
Definition of_Z (n : Z) : t := of_sf (binary_normalize prec emax n 0 false).

(** The integer part of a finite float, truncated toward zero. *)
Definition trunc (f : spec_float) : option Z :=
  match f with
  | S754_zero _ => Some 0
  | S754_finite s m e =>
      let a := if 0 <=? e then Zpos m * 2 ^ e else Z.div (Zpos m) (2 ^ (- e)) in
      Some (if s then - a else a)
  | _ => None
  end.

(** Go's conversion [int32(f)] on amd64 (CVTTSD2SL): truncation toward
    zero; NaN, infinities and values whose truncation does not fit in
    32 bits give the "integer indefinite" 0x80000000 = -2^31. *)
Definition to_int32 (b : t) : Z :=
  match trunc (to_sf b) with
  | Some v => if (- 2 ^ 31 <=? v) && (v <? 2 ^ 31) then v else - 2 ^ 31
  | None => - 2 ^ 31
  end.

(** Constants of the Go code. *)
Definition max_float64 : t := 9218868437227405311.      (* 0x7FEFFFFFFFFFFFFF *)
Definition neg_max_float64 : t := 18442240474082181119. (* 0xFFEFFFFFFFFFFFFF *)
Definition zero : t := 0.
(** The literal [0.001], i.e. 0x3F50624DD2F1A9FC. *)
Definition milli : t := 4562254508917369340.

End F64.

(* ------------------------------------------------------------------ *)
(** ** Bytes and little-endian fields ([encoding/binary]) *)

(** A byte is an 8-bit [Z]; a byte slice is a list of them. *)
Abbreviation bytes := (list Z).

(** [binary.LittleEndian.PutUintN]: the low [n] bytes of [v]. *)
Fixpoint le_bytes (n : nat) (v : Z) : bytes :=
  match n with
  | O => []
  | S n' => Z.land v 255 :: le_bytes n' (Z.shiftr v 8)
  end.

(** [binary.LittleEndian.UintN] on a slice of exactly the field's length. *)
Fixpoint le_value (bs : bytes) : Z :=
  match bs with
  | [] => 0
  | b :: bs' => b + 256 * le_value bs'
  end.

(** [b[i:j]] *)
Definition slice (i j : nat) (bs : bytes) : bytes := firstn (j - i) (skipn i bs).

Definition get_le (bs : bytes) (i n : nat) : Z := le_value (slice i (i + n) bs).

(** [int32(u)] for a uint32 [u] (two's complement reinterpretation). *)
Definition int32_of_uint32 (u : Z) : Z := if u <? 2 ^ 31 then u else u - 2 ^ 32.

(** A string's bytes ([[]byte("...")]). *)
Definition bytes_of_string (s : string) : bytes :=
  map (fun c => Z.of_nat (nat_of_ascii c)) (list_ascii_of_string s).

Definition zeros (n : nat) : bytes := repeat 0 n.

(** [copy(header[i:i+n], []byte(s))] into a zeroed field of [n] bytes. *)
Definition text_field (n : nat) (s : string) : bytes :=
  let b := firstn n (bytes_of_string s) in b ++ zeros (n - length b).

Definition is_byte (b : Z) : Prop := 0 <= b < 256.

(* ------------------------------------------------------------------ *)
(** ** las/writer.go *)

(** [las.Point]. Go's field [Z] is named [Z_] here, [Z] being the
    integers. Coordinates and [GPSTime] are float64 bit patterns;
    [Intensity], [R], [G], [B] are uint16 and [Classification] uint8. *)
Record Point := mkPoint {
  X : F64.t; Y : F64.t; Z_ : F64.t;
  Intensity : Z;
  R : Z; G : Z; B : Z;
  Classification : Z;
  GPSTime : F64.t
}.

(** The ranges the Go types give the fields. *)
Definition point_wf (p : Point) : Prop :=
  0 <= X p < 2 ^ 64 /\ 0 <= Y p < 2 ^ 64 /\ 0 <= Z_ p < 2 ^ 64 /\
  0 <= Intensity p < 2 ^ 16 /\ 0 <= R p < 2 ^ 16 /\ 0 <= G p < 2 ^ 16 /\
  0 <= B p < 2 ^ 16 /\ 0 <= Classification p < 2 ^ 8 /\ 0 <= GPSTime p < 2 ^ 64.

(** [las.Writer] *)
Record Writer := mkWriter {
  points : list Point;
  minX : F64.t; minY : F64.t; minZ : F64.t;
  maxX : F64.t; maxY : F64.t; maxZ : F64.t
}.

Definition NewWriter : Writer :=
  mkWriter [] F64.max_float64 F64.max_float64 F64.max_float64
    F64.neg_max_float64 F64.neg_max_float64 F64.neg_max_float64.

(** [if p.X < w.minX { w.minX = p.X }] *)
Definition upd_min (v m : F64.t) : F64.t := if F64.lt v m then v else m.
(** [if p.X > w.maxX { w.maxX = p.X }] *)
Definition upd_max (v m : F64.t) : F64.t := if F64.lt m v then v else m.

Definition AddPoint (w : Writer) (p : Point) : Writer :=
  mkWriter (points w ++ [p])
    (upd_min (X p) (minX w)) (upd_min (Y p) (minY w)) (upd_min (Z_ p) (minZ w))
    (upd_max (X p) (maxX w)) (upd_max (Y p) (maxY w)) (upd_max (Z_ p) (maxZ w)).

(** A writer after [NewWriter] and one [AddPoint] per point, in order. *)
Definition writer_of (ps : list Point) : Writer := fold_left AddPoint ps NewWriter.

(** The scale factors of [Write]: [xScale := 0.001] etc. *)
Definition xScale : F64.t := F64.milli.
Definition yScale : F64.t := F64.milli.
Definition zScale : F64.t := F64.milli.

(** The 227-byte LAS 1.2 header [Write] builds, field by field.
    [day] and [year] are [time.Now().YearDay()] and [time.Now().Year()]. *)
Definition header_bytes (w : Writer) (day year : Z) : bytes :=
  bytes_of_string "LASF"                       (* [0:4]   signature *)
  ++ le_bytes 2 0                              (* [4:6]   file source id *)
  ++ le_bytes 2 1                              (* [6:8]   global encoding *)
  ++ zeros 16                                  (* [8:24]  project id *)
  ++ [1; 2]                                    (* [24] [25] version *)
  ++ text_field 32 "CompactMapper"             (* [26:58] system id *)
  ++ text_field 32 "CompactMapper v1.0"        (* [58:90] software *)
  ++ le_bytes 2 day                            (* [90:92] *)
  ++ le_bytes 2 year                           (* [92:94] *)
  ++ le_bytes 2 227                            (* [94:96] header size *)
  ++ le_bytes 4 227                            (* [96:100] offset to points *)
  ++ le_bytes 4 0                              (* [100:104] VLR count *)
  ++ [3]                                       (* [104] point format *)
  ++ le_bytes 2 34                             (* [105:107] record length *)
  ++ le_bytes 4 (Z.of_nat (length (points w))) (* [107:111] point count *)
  ++ le_bytes 4 (Z.of_nat (length (points w))) (* [111:115] by return *)
  ++ zeros 16                                  (* [115:131] *)
  ++ le_bytes 8 xScale ++ le_bytes 8 yScale ++ le_bytes 8 zScale
  ++ le_bytes 8 (minX w) ++ le_bytes 8 (minY w) ++ le_bytes 8 (minZ w)
  ++ le_bytes 8 (maxX w) ++ le_bytes 8 (maxY w) ++ le_bytes 8 (maxZ w)
  ++ le_bytes 8 (minX w) ++ le_bytes 8 (minY w) ++ le_bytes 8 (minZ w).

(** [x := int32((p.X - w.minX) / xScale)] *)
Definition scaled (v mn scale : F64.t) : Z := F64.to_int32 (F64.div (F64.sub v mn) scale).

(** The 34-byte format-3 record [Write] emits for one point. *)
Definition point_bytes (w : Writer) (p : Point) : bytes :=
  le_bytes 4 (scaled (X p) (minX w) xScale)     (* [0:4] *)
  ++ le_bytes 4 (scaled (Y p) (minY w) yScale)  (* [4:8] *)
  ++ le_bytes 4 (scaled (Z_ p) (minZ w) zScale) (* [8:12] *)
  ++ le_bytes 2 (Intensity p)                   (* [12:14] *)
  ++ [1]                                        (* [14] first return of 1 *)
  ++ [Classification p]                         (* [15] *)
  ++ [0]                                        (* [16] scan angle *)
  ++ [0]                                        (* [17] user data *)
  ++ le_bytes 2 0                               (* [18:20] point source id *)
  ++ le_bytes 8 (GPSTime p)                     (* [20:28] *)
  ++ le_bytes 2 (R p) ++ le_bytes 2 (G p) ++ le_bytes 2 (B p). (* [28:34] *)

(** The file system: file name to contents. *)
Abbreviation FS := (gmap string bytes).

Inductive error :=
| ErrNoPoints                      (* "no points to write" *)
| ErrOpen                          (* "error opening file" *)
| ErrHeader                        (* "error reading header" *)
| ErrSignature                     (* "invalid LAS file: wrong signature" *)
| ErrFormat (f : Z)                (* "unsupported point format" *)
| ErrReadPoint (i : Z).            (* "error reading point %d" *)

(** [file.Write(b)] on a file opened by [os.Create]: appends. *)
Definition append_file (name : string) (b : bytes) (fs : FS) : FS :=
  <[name := default [] (fs !! name) ++ b]> fs.

(** [Writer.Write(filename)]: [None] is a nil error. Writes to the disk
    are assumed not to fail. *)
Definition Write (w : Writer) (filename : string) (day year : Z) (fs : FS)
  : option error * FS :=
  if (length (points w) =? 0)%nat then (Some ErrNoPoints, fs)
  else
    let fs1 := <[filename := []]> fs in                        (* os.Create *)
    let fs2 := append_file filename (header_bytes w day year) fs1 in
    let fs3 := fold_left (fun acc p => append_file filename (point_bytes w p) acc)
                 (points w) fs2 in
    (None, fs3).

(* ------------------------------------------------------------------ *)
(** ** las/reader.go *)

(** [las.Header] *)
Record Header := mkHeader {
  VersionMajor : Z; VersionMinor : Z;
  PointFormat : Z; PointCount : Z; PointRecordLength : Z;
  XScale : F64.t; YScale : F64.t; ZScale : F64.t;
  XOffset : F64.t; YOffset : F64.t; ZOffset : F64.t;
  MinX : F64.t; MinY : F64.t; MinZ : F64.t;
  MaxX : F64.t; MaxY : F64.t; MaxZ : F64.t
}.

(** [las.Reader]: the open file (its contents and the offset of the
    handle) and the parsed header. *)
Record Reader := mkReader { file : bytes; pos : nat; header : Header }.

(** [io.ReadFull(f, buf)] with [len(buf) = n] at offset [p]: the bytes
    read, or [None] (EOF / ErrUnexpectedEOF) when fewer than [n] remain;
    the handle advances past whatever was read. *)
Definition read_full (f : bytes) (p n : nat) : option bytes * nat :=
  let got := slice p (p + n) f in
  if (length got =? n)%nat then (Some got, (p + n)%nat)
  else (None, Nat.max p (length f)).

Definition parse_header (h : bytes) : Header :=
  mkHeader (nth 24 h 0) (nth 25 h 0)
    (nth 104 h 0) (get_le h 107 4) (get_le h 105 2)
    (get_le h 131 8) (get_le h 139 8) (get_le h 147 8)
    (get_le h 155 8) (get_le h 163 8) (get_le h 171 8)
    (get_le h 203 8) (get_le h 211 8) (get_le h 219 8)
    (get_le h 179 8) (get_le h 187 8) (get_le h 195 8).

(** [Reader.readHeader], on a freshly opened file (offset 0). *)
Definition readHeader (f : bytes) : (error + Header) * nat :=
  match read_full f 0 227 with
  | (None, p) => (inl ErrHeader, p)
  | (Some h, p) =>
      if decide (slice 0 4 h = bytes_of_string "LASF")
      then (inr (parse_header h), p)
      else (inl ErrSignature, p)
  end.

(** [NewReader(filename)] *)
Definition NewReader (fs : FS) (filename : string) : error + Reader :=
  match fs !! filename with
  | None => inl ErrOpen
  | Some f =>
      match readHeader f with
      | (inl e, _) => inl e
      | (inr h, p) => inr (mkReader f p h)
      end
  end.

(** [float64(x)*scale + offset] *)
Definition unscale (x : Z) (scale offset : F64.t) : F64.t :=
  F64.add (F64.mul (F64.of_Z x) scale) offset.

(** One decoded record; [ts] is [Some] of the GPS time offset in the
    record for format 3 and [None] for format 2 (GPSTime left at 0.0),
    [rgb] the offset of the colour triple. *)
Definition decode_point (h : Header) (d : bytes) (ts : option nat) (rgb : nat) : Point :=
  let x := int32_of_uint32 (get_le d 0 4) in
  let y := int32_of_uint32 (get_le d 4 4) in
  let z := int32_of_uint32 (get_le d 8 4) in
  mkPoint (unscale x (XScale h) (XOffset h))
          (unscale y (YScale h) (YOffset h))
          (unscale z (ZScale h) (ZOffset h))
          (get_le d 12 2)
          (get_le d rgb 2) (get_le d (rgb + 2) 2) (get_le d (rgb + 4) 2)
          (nth 15 d 0)
          (match ts with Some o => get_le d o 8 | None => F64.zero end).

(** The loop [for i := uint32(0); i < PointCount; i++] of
    [readPointsFormat2/3], with record length [len]; [i] counts the
    records read so far and [acc] the points, in order. *)
Fixpoint read_loop (h : Header) (len : nat) (ts : option nat) (rgb : nat)
    (f : bytes) (fuel : nat) (i : Z) (p : nat) (acc : list Point)
  : (error + list Point) * nat :=
  match fuel with
  | O => (inr acc, p)
  | S fuel' =>
      match read_full f p len with
      | (None, p') => (inl (ErrReadPoint i), p')
      | (Some d, p') =>
          read_loop h len ts rgb f fuel' (i + 1) p' (acc ++ [decode_point h d ts rgb])
      end
  end.

Definition readPointsFormat2 (r : Reader) : (error + list Point) * nat :=
  read_loop (header r) 26 None 20 (file r) (Z.to_nat (PointCount (header r))) 0 (pos r) [].

Definition readPointsFormat3 (r : Reader) : (error + list Point) * nat :=
  read_loop (header r) 34 (Some 20%nat) 28 (file r) (Z.to_nat (PointCount (header r))) 0 (pos r) [].

(** [Reader.ReadPoints]: seeks to offset 227 (always possible on an
    open regular file), then dispatches on the point format. The reader
    is returned with the new offset of its handle. *)
Definition ReadPoints (r : Reader) : (error + list Point) * Reader :=
  let r1 := mkReader (file r) 227 (header r) in
  let res :=
    if PointFormat (header r1) =? 2 then readPointsFormat2 r1
    else if PointFormat (header r1) =? 3 then readPointsFormat3 r1
    else (inl (ErrFormat (PointFormat (header r1))), pos r1) in
  (fst res, mkReader (file r) (snd res) (header r)).

(** Open a file and read all its points. *)
Definition decode (fs : FS) (filename : string) : error + list Point :=
  match NewReader fs filename with
  | inl e => inl e
  | inr r => fst (ReadPoints r)
  end.

(* ------------------------------------------------------------------ *)
(** ** converter: [determineColor] *)

(** [determineColor(passCount, targPass)]: the (R, G, B) triple. *)
Definition determineColor (passCount targPass : Z) : Z * Z * Z :=
  if passCount <? targPass then (65535, 0, 0)
  else if passCount =? targPass then (0, 65535, 0)
  else (0, 0, 65535).

(* ------------------------------------------------------------------ *)
(** ** The parts of Go's [time.Parse] used by [parseDate]

    Strings are byte strings ([string] over [ascii]), as Go's are. *)

Local Infix "+++" := String.append (at level 60, right associativity).

Definition code (c : ascii) : Z := Z.of_nat (nat_of_ascii c).

Definition is_digit (c : ascii) : bool := (48 <=? code c) && (code c <=? 57).

Definition digit_value (c : ascii) : Z := code c - 48.

(** [isDigit(s, i)] *)
Definition isDigit (s : string) (i : nat) : bool :=
  match String.get i s with Some c => is_digit c | None => false end.

(** [commaOrPeriod(b)] *)
Definition commaOrPeriod (c : ascii) : bool := Ascii.eqb c "," || Ascii.eqb c ".".

(** [getnum(s, fixed)]: one or two leading digits (two if [fixed]). *)
Definition getnum (s : string) (fixed : bool) : option (Z * string) :=
  match s with
  | String c0 rest =>
      if is_digit c0 then
        match rest with
        | String c1 rest' =>
            if is_digit c1 then Some (10 * digit_value c0 + digit_value c1, rest')
            else if fixed then None else Some (digit_value c0, rest)
        | EmptyString => if fixed then None else Some (digit_value c0, rest)
        end
      else None
  | EmptyString => None
  end.

(** [cutspace(s)]: drop the leading spaces. *)
Fixpoint cutspace (s : string) : string :=
  match s with
  | String c rest => if Ascii.eqb c " " then cutspace rest else s
  | EmptyString => s
  end.

(** [skip(value, prefix)]: match the literal [prefix]; a space in it
    matches a run of spaces. Each round shortens [prefix], so
    [length prefix + 1] rounds suffice. *)
Fixpoint skip_rounds (n : nat) (value prefix : string) : option string :=
  match n with
  | O => None
  | S n' =>
      match prefix with
      | EmptyString => Some value
      | String p0 prest =>
          if Ascii.eqb p0 " " then
            match value with
            | String v0 _ =>
                if Ascii.eqb v0 " " then skip_rounds n' (cutspace value) (cutspace prefix)
                else None
            | EmptyString => skip_rounds n' (cutspace value) (cutspace prefix)
            end
          else
            match value with
            | String v0 vrest => if Ascii.eqb v0 p0 then skip_rounds n' vrest prest else None
            | EmptyString => None
            end
      end
  end.

Definition skip (value prefix : string) : option string :=
  skip_rounds (S (String.length prefix)) value prefix.

(** [match(s1, s2)]: ASCII case-insensitive equality ([s2] at least as
    long as [s1]). *)
Definition match_char (c1 c2 : ascii) : bool :=
  Ascii.eqb c1 c2 ||
  (let l1 := Z.lor (code c1) 32 in let l2 := Z.lor (code c2) 32 in
   (l1 =? l2) && (97 <=? l1) && (l1 <=? 122)).

Fixpoint match_ (s1 s2 : string) : bool :=
  match s1, s2 with
  | EmptyString, _ => true
  | String c1 r1, String c2 r2 => match_char c1 c2 && match_ r1 r2
  | String _ _, EmptyString => false
  end.

Definition shortMonthNames : list string :=
  ["Jan"; "Feb"; "Mar"; "Apr"; "May"; "Jun"; "Jul"; "Aug"; "Sep"; "Oct"; "Nov"; "Dec"].

(** [lookup(tab, val)]: index of the first entry [val] starts with (in
    any letter case), and the rest of [val]. *)
Fixpoint lookup_from (i : Z) (tab : list string) (val : string) : option (Z * string) :=
  match tab with
  | [] => None
  | v :: tab' =>
      if (String.length v <=? String.length val)%nat &&
         match_ (substring 0 (String.length v) val) v
      then Some (i, substring (String.length v) (String.length val - String.length v) val)
      else lookup_from (i + 1) tab' val
  end.

Definition lookup (tab : list string) (val : string) : option (Z * string) :=
  lookup_from 0 tab val.

(** [leadingInt(s)]: the value of the leading digits and the rest (no
    overflow on the at most ten digits it is given here). *)
Fixpoint leadingInt_acc (x : Z) (s : string) : Z * string :=
  match s with
  | String c rest => if is_digit c then leadingInt_acc (x * 10 + digit_value c) rest else (x, s)
  | EmptyString => (x, s)
  end.

(** [atoi(s)] *)
Definition atoi (s : string) : option Z :=
  let '(neg, s') :=
    match s with
    | String c rest =>
        if Ascii.eqb c "-" then (true, rest)
        else if Ascii.eqb c "+" then (false, rest) else (false, s)
    | EmptyString => (false, s)
    end in
  match leadingInt_acc 0 s' with
  | (q, EmptyString) => Some (if neg then - q else q)
  | _ => None
  end.

(** [parseNanoseconds(value, nbytes)] *)
Definition parseNanoseconds (value : string) (nbytes : nat) : option Z :=
  match value with
  | String c0 _ =>
      if negb (commaOrPeriod c0) then None
      else
        let nb := Nat.min nbytes 10 in
        match atoi (substring 1 (nb - 1) value) with
        | Some ns => if ns <? 0 then None else Some (ns * 10 ^ Z.of_nat (10 - nb))
        | None => None
        end
  | EmptyString => None
  end.

Fixpoint leading_digits (s : string) : nat :=
  match s with
  | String c rest => if is_digit c then S (leading_digits rest) else O
  | EmptyString => O
  end.

(** [isLeap(year)] and [daysIn(m, year)] *)
Definition isLeap (year : Z) : bool :=
  (Z.rem year 4 =? 0) && (negb (Z.rem year 100 =? 0) || (Z.rem year 400 =? 0)).

Definition daysIn (m year : Z) : Z :=
  if (m =? 2) && isLeap year then 29
  else nth (Z.to_nat m) [0; 31; 28; 31; 30; 31; 30; 31; 31; 30; 31; 30; 31] 0.

(** The layout elements [nextStdChunk] finds in
    ["2006/Jan/02 15:04:05.999"]. *)
Inductive std :=
| stdLongYear | stdMonth | stdZeroDay | stdHour | stdZeroMinute | stdZeroSecond
| stdFracSecond9.

(** The local variables of [time.Parse]. *)
Record pstate := mkPstate {
  p_year : Z; p_month : Z; p_day : Z; p_hour : Z; p_min : Z; p_sec : Z; p_nsec : Z
}.

Definition pstate_init : pstate := mkPstate 0 (-1) (-1) 0 0 0 0.

Definition set_year y st := mkPstate y (p_month st) (p_day st) (p_hour st) (p_min st) (p_sec st) (p_nsec st).
Definition set_month m st := mkPstate (p_year st) m (p_day st) (p_hour st) (p_min st) (p_sec st) (p_nsec st).
Definition set_day d st := mkPstate (p_year st) (p_month st) d (p_hour st) (p_min st) (p_sec st) (p_nsec st).
Definition set_hour h st := mkPstate (p_year st) (p_month st) (p_day st) h (p_min st) (p_sec st) (p_nsec st).
Definition set_min m st := mkPstate (p_year st) (p_month st) (p_day st) (p_hour st) m (p_sec st) (p_nsec st).
Definition set_sec s st := mkPstate (p_year st) (p_month st) (p_day st) (p_hour st) (p_min st) s (p_nsec st).
Definition set_nsec n st := mkPstate (p_year st) (p_month st) (p_day st) (p_hour st) (p_min st) (p_sec st) n.

(** One round of the [switch std & stdMask] of [time.Parse]: the rest of
    the input and the updated variables, or [None] on an error
    (a failed conversion or a field out of range). *)
Definition parse_std (s : std) (value : string) (st : pstate) : option (string * pstate) :=
  match s with
  | stdLongYear =>
      if (String.length value <? 4)%nat || negb (isDigit value 0) then None
      else match atoi (substring 0 4 value) with
           | Some y => Some (substring 4 (String.length value - 4) value, set_year y st)
           | None => None
           end
  | stdMonth =>
      match lookup shortMonthNames value with
      | Some (m, v) => Some (v, set_month (m + 1) st)
      | None => None
      end
  | stdZeroDay =>
      match getnum value true with
      | Some (d, v) => Some (v, set_day d st)
      | None => None
      end
  | stdHour =>
      match getnum value false with
      | Some (h, v) => if (h <? 0) || (24 <=? h) then None else Some (v, set_hour h st)
      | None => None
      end
  | stdZeroMinute =>
      match getnum value true with
      | Some (m, v) => if (m <? 0) || (60 <=? m) then None else Some (v, set_min m st)
      | None => None
      end
  | stdZeroSecond =>
      (* a fraction after the seconds is left to the next element,
         which is [stdFracSecond9] in this layout *)
      match getnum value true with
      | Some (sec, v) => if (sec <? 0) || (60 <=? sec) then None else Some (v, set_sec sec st)
      | None => None
      end
  | stdFracSecond9 =>
      match value with
      | String c0 rest =>
          match rest with
          | String c1 _ =>
              if commaOrPeriod c0 && is_digit c1 then
                let i := leading_digits rest in
                match parseNanoseconds value (1 + i) with
                | Some ns =>
                    Some (substring (1 + i) (String.length value - (1 + i)) value, set_nsec ns st)
                | None => None
                end
              else Some (value, st)                      (* fraction omitted *)
          | EmptyString => Some (value, st)
          end
      | EmptyString => Some (value, st)
      end
  end.

(** [nextStdChunk] applied repeatedly to ["2006/Jan/02 15:04:05.999"]:
    each element with the literal text before it. *)
Definition layout_chunks : list (string * std) :=
  [(EmptyString, stdLongYear); ("/"%string, stdMonth); ("/"%string, stdZeroDay);
   (" "%string, stdHour); (":"%string, stdZeroMinute); (":"%string, stdZeroSecond);
   (EmptyString, stdFracSecond9)].

(** The loop of [time.Parse]; at the end of the layout any input left is
    "extra text". *)
Fixpoint parse_loop (chunks : list (string * std)) (value : string) (st : pstate)
  : option pstate :=
  match chunks with
  | [] => if String.eqb value EmptyString then Some st else None
  | (prefix, s) :: rest =>
      match skip value prefix with
      | None => None
      | Some v =>
          match parse_std s v st with
          | None => None
          | Some (v', st') => parse_loop rest v' st'
          end
      end
  end.

(** [time.Parse("2006/Jan/02 15:04:05.999", value)], with the final
    validation of the day of the month. *)
Definition time_Parse (value : string) : option pstate :=
  match parse_loop layout_chunks value pstate_init with
  | Some st =>
      let month := if p_month st <? 0 then 1 else p_month st in
      let day := if p_day st <? 0 then 1 else p_day st in
      if (day <? 1) || (daysIn month (p_year st) <? day) then None
      else Some (set_day day (set_month month st))
  | None => None
  end.

(** [appendInt(b, x, width)] for [0 <= x < 10 ^ width], width 2 or 4. *)
Definition digit_char (n : Z) : ascii := ascii_of_nat (Z.to_nat (48 + n)).
Definition pad2 (n : Z) : string :=
  String (digit_char (n / 10)) (String (digit_char (n mod 10)) EmptyString).
Definition pad4 (n : Z) : string :=
  String (digit_char (n / 1000)) (String (digit_char (n / 100 mod 10))
    (String (digit_char (n / 10 mod 10)) (String (digit_char (n mod 10)) EmptyString))).

(** [parseDate(timeStr)]: [t.Format("2006-01-02")] of the parsed time.
    The date fields are in range after the validation, so [time.Date]
    keeps them and [Format] prints them back. *)
Definition parseDate (timeStr : string) : option string :=
  match time_Parse timeStr with
  | Some st => Some (pad4 (p_year st) +++ "-" +++ pad2 (p_month st) +++ "-" +++ pad2 (p_day st))
  | None => None
  end.

(* ------------------------------------------------------------------ *)
(** ** sorter: amplitudes, file names, grouping *)

(** [strings.ReplaceAll(s, old, new)] for a one-byte [old] and an empty
    [new]. *)
Fixpoint remove_char (c : ascii) (s : string) : string :=
  match s with
  | String c0 rest => if Ascii.eqb c0 c then remove_char c rest else String c0 (remove_char c rest)
  | EmptyString => EmptyString
  end.

(** [normalizeAmp(amp)] *)
Definition normalizeAmp (amp : string) : string :=
  if String.eqb amp EmptyString || String.eqb amp "?" then "no_amp"
  else
    let normalized := remove_char "." amp in
    if (3 <? String.length normalized)%nat then substring 0 3 normalized else normalized.

(** [generateFilename(date, design, amp)] *)
Definition generateFilename (date design amp : string) : string :=
  if String.eqb amp "no_amp" then date +++ "design" +++ design +++ "amp.csv"
  else date +++ "design" +++ design +++ "amp" +++ amp +++ ".csv".

(** The class of [sanitizeFilename]: [<], [>], [:], the double quote,
    [/], the backslash, [|], [?] and [*]. *)
Definition invalid_filename_char (c : ascii) : bool :=
  existsb (Ascii.eqb c) ["<"; ">"; ":"; ascii_of_nat 34; "/"; "\"; "|"; "?"; "*"]%char.

(** [sanitizeFilename(filename)]: every match of the class deleted (the class holds ASCII characters only, so this
    works byte by byte). *)
Fixpoint sanitizeFilename (filename : string) : string :=
  match filename with
  | String c rest =>
      if invalid_filename_char c then sanitizeFilename rest else String c (sanitizeFilename rest)
  | EmptyString => EmptyString
  end.

(** [GroupKey] *)
Record GroupKey := mkGroupKey { Date : string; DesignName : string; Amp : string }.

#[global] Instance GroupKey_eq_dec : EqDecision GroupKey.
Proof. solve_decision. Defined.

#[global] Program Instance GroupKey_countable : Countable GroupKey :=
  inj_countable' (fun k => (Date k, DesignName k, Amp k))
                 (fun '(d, n, a) => mkGroupKey d n a) _.
Next Obligation. intros []. reflexivity. Qed.

(** A CSV record, and [map[GroupKey][][]string]. *)
Abbreviation row := (list string).
Abbreviation Groups := (gmap GroupKey (list row)).

(** The output directory: file name to CSV records, header included. *)
Abbreviation CSVFS := (gmap string (list row)).

(** [row[i]]: a record [reader.Read()] returns without error has the
    header's field count (see [read_record]), so the column indices are
    in range. *)
Definition field (r : row) (i : nat) : string := nth i r EmptyString.

Inductive sort_error :=
| ErrParseDate (s : string)            (* "error parsing date from '%s': %v" *)
| ErrMissingColumn (col : string)      (* "missing required column: %s" *)
| ErrReadRow (row : nat)               (* "error reading row %d: %v" *)
| ErrCreateFile (name : string).       (* "error creating output file %s: %v" *)

(** What one [reader.Read()] after the header yields: a record as the
    CSV syntax splits it, or a syntax error (a bare or unterminated
    quote). *)
Inductive csv_read :=
| CSVRecord (r : row)
| CSVSyntaxError.

(** [reader.Read()] with [FieldsPerRecord] left at 0: the header fixed
    the field count [width], and a record with another count is returned
    with [ErrFieldCount]. [None] is a non-nil [err]. *)
Definition read_record (width : nat) (it : csv_read) : option row :=
  match it with
  | CSVRecord r => if (length r =? width)%nat then Some r else None
  | CSVSyntaxError => None
  end.

(** The loop of [processChunk], from row [rows] on, with [skipped] rows
    skipped so far: the skipped count, the error if any, and [groups]
    as the loop leaves it (the map is shared with the caller). *)
Fixpoint processChunk_rows (rows : list row) (timeIdx designIdx ampIdx : nat)
    (groups : Groups) (skipErrors : bool) (skipped : nat)
  : (nat * option sort_error) * Groups :=
  match rows with
  | [] => ((skipped, None), groups)
  | r :: rest =>
      match parseDate (field r timeIdx) with
      | None =>
          if skipErrors
          then processChunk_rows rest timeIdx designIdx ampIdx groups skipErrors (S skipped)
          else ((skipped, Some (ErrParseDate (field r timeIdx))), groups)
      | Some date =>
          let key := mkGroupKey date (field r designIdx) (normalizeAmp (field r ampIdx)) in
          processChunk_rows rest timeIdx designIdx ampIdx
            (<[key := default [] (groups !! key) ++ [r]]> groups) skipErrors skipped
      end
  end.

(** [processChunk(chunk, timeIdx, designIdx, ampIdx, groups, skipErrors, ...)] *)
Definition processChunk (chunk : list row) (timeIdx designIdx ampIdx : nat)
    (groups : Groups) (skipErrors : bool) : (nat * option sort_error) * Groups :=
  processChunk_rows chunk timeIdx designIdx ampIdx groups skipErrors 0.

Definition ChunkSize : nat := Z.to_nat 10000.

(** The record loop of [SortCSV] over what the [reader.Read()] calls
    after the header yield ([width] the header's field count), with the
    pending [chunk] and [rowCount], the number of records read so far. *)
Fixpoint sort_records (width : nat) (items : list csv_read) (chunk : list row) (rowCount : nat)
    (timeIdx designIdx ampIdx : nat) (groups : Groups) (skipErrors : bool)
  : option sort_error * Groups :=
  match items with
  | [] =>
      if (0 <? length chunk)%nat then
        match processChunk chunk timeIdx designIdx ampIdx groups skipErrors with
        | ((_, Some e), g) => if skipErrors then (None, g) else (Some e, g)
        | ((_, None), g) => (None, g)
        end
      else (None, groups)
  | it :: rest =>
      match read_record width it with
      | None =>
          if skipErrors
          then sort_records width rest chunk rowCount timeIdx designIdx ampIdx groups skipErrors
          else (Some (ErrReadRow (rowCount + 2)), groups)
      | Some r =>
          let chunk' := chunk ++ [r] in
          if (ChunkSize <=? length chunk')%nat then
            match processChunk chunk' timeIdx designIdx ampIdx groups skipErrors with
            | ((_, Some e), g) =>
                if skipErrors
                then sort_records width rest [] (S rowCount) timeIdx designIdx ampIdx g skipErrors
                else (Some e, g)
            | ((_, None), g) =>
                sort_records width rest [] (S rowCount) timeIdx designIdx ampIdx g skipErrors
            end
          else sort_records width rest chunk' (S rowCount) timeIdx designIdx ampIdx groups skipErrors
      end
  end.

(** [colMap[col]] after [for i, col := range header { colMap[col] = i }]:
    the last column of that name. *)
Fixpoint col_index_from (i : nat) (header : row) (col : string) : option nat :=
  match header with
  | [] => None
  | c :: rest =>
      match col_index_from (S i) rest col with
      | Some j => Some j
      | None => if String.eqb c col then Some i else None
      end
  end.

Definition col_index (header : row) (col : string) : option nat := col_index_from 0 header col.

(** The body of [for key, rows := range groups] once [os.OpenFile] has
    succeeded: append to the file [sanitizeFilename(generateFilename(...))]
    the header if the file is new ([os.Stat]), then the rows. Writes to
    an opened file are assumed to succeed. *)
Definition output_file (k : GroupKey) : string :=
  sanitizeFilename (generateFilename (Date k) (DesignName k) (Amp k)).

Definition write_group (header : row) (fs : CSVFS) (k : GroupKey) (rows : list row) : CSVFS :=
  let name := output_file k in
  let fileExists := bool_decide (is_Some (fs !! name)) in
  <[name := default [] (fs !! name) ++ (if fileExists then [] else [header]) ++ rows]> fs.

(** The loop when every [os.OpenFile] succeeds. *)
Definition write_groups (header : row) (groups : Groups) (order : list GroupKey) (fs : CSVFS)
  : CSVFS :=
  fold_left (fun acc k =>
               match groups !! k with Some rows => write_group header acc k rows | None => acc end)
            order fs.

(** The loop [for key, rows := range groups], keys in the order [order];
    [can_open name] tells whether [os.OpenFile] succeeds on the output
    path of [name] (it fails, for instance, on a name over the file
    system's length limit), and the loop returns at the first failure. *)
Fixpoint write_groups_checked (can_open : string -> bool) (header : row) (groups : Groups)
    (order : list GroupKey) (fs : CSVFS) : option sort_error * CSVFS :=
  match order with
  | [] => (None, fs)
  | k :: rest =>
      match groups !! k with
      | Some rows =>
          if can_open (output_file k)
          then write_groups_checked can_open header groups rest (write_group header fs k rows)
          else (Some (ErrCreateFile (output_file k)), fs)
      | None => write_groups_checked can_open header groups rest fs
      end
  end.

(** [SortCSV] after the header has been read. Go ranges over a map in
    an unspecified order: [enum groups] is that order. *)
Definition SortCSV (enum : Groups -> list GroupKey) (can_open : string -> bool) (header : row)
    (items : list csv_read) (skipErrors : bool) (fs : CSVFS) : option sort_error * CSVFS :=
  match col_index header "Time", col_index header "DesignName", col_index header "LastAmp" with
  | Some timeIdx, Some designIdx, Some ampIdx =>
      match sort_records (length header) items [] 0 timeIdx designIdx ampIdx ∅ skipErrors with
      | (Some e, _) => (Some e, fs)
      | (None, groups) => write_groups_checked can_open header groups (enum groups) fs
      end
  | None, _, _ => (Some (ErrMissingColumn "Time"), fs)
  | _, None, _ => (Some (ErrMissingColumn "DesignName"), fs)
  | _, _, None => (Some (ErrMissingColumn "LastAmp"), fs)
  end.

(** An admissible iteration order: every key of the map, once. *)
Definition enum_ok (enum : Groups -> list GroupKey) : Prop :=
  forall g, NoDup (enum g) /\ forall k, In k (enum g) <-> is_Some (g !! k).

(** The iteration order of the runs below: by the map's own listing. *)
Definition map_order (g : Groups) : list GroupKey := map fst (map_to_list g).

(* ------------------------------------------------------------------ *)
(** ** las/reader.go: [GetHeader] *)

Definition GetHeader (r : Reader) : Header := header r.

(* ------------------------------------------------------------------ *)
(** ** converter: [ConvertCSVToLAS] and [ConvertDirectory] *)

Fixpoint all_digits (s : string) : bool :=
  match s with
  | String c rest => is_digit c && all_digits rest
  | EmptyString => true
  end.

(** [strconv.Atoi(s)] on a 64-bit platform: an optional sign, then at
    least one decimal digit; the value must fit in an int64. *)
Definition Atoi (s : string) : option Z :=
  let '(neg, body) :=
    match s with
    | String c rest =>
        if Ascii.eqb c "-" then (true, rest)
        else if Ascii.eqb c "+" then (false, rest) else (false, s)
    | EmptyString => (false, s)
    end in
  if String.eqb body EmptyString || negb (all_digits body) then None
  else
    let v := fst (leadingInt_acc 0 body) in
    let n := if neg then - v else v in
    if (- 2 ^ 63 <=? n) && (n <? 2 ^ 63) then Some n else None.

Inductive convert_error :=
| ErrOpenCSV                                  (* "error opening CSV file" / "error reading CSV" *)
| ErrCSVEmpty                                 (* "CSV file is empty or has no data rows" *)
| ErrConvMissingColumn (col : string)         (* "missing required column: %s" *)
| ErrMkdir                                    (* "error creating output directory: %v" *)
| ErrInvalidValue (row : nat) (col : string)  (* "row %d: invalid %s value: %v" *)
| ErrSlicePanic                               (* baseName[:len(baseName)-4] out of range *)
| ErrWriteLAS (e : error)                     (* "error writing LAS file: %v" *)
| ErrNoCSVFiles                               (* "no CSV files found in %s" *)
| ErrConvertFile (name : string) (e : convert_error). (* "error converting %s: %v" *)

Definition required_columns : list string :=
  ["Time"; "CellE_m"; "CellN_m"; "Elevation_m"; "PassCount"; "TargPassCount"].

(** The check [for _, col := range required]: the first column missing. *)
Fixpoint first_missing (header : row) (cols : list string) : option string :=
  match cols with
  | [] => None
  | c :: rest =>
      match col_index header c with
      | None => Some c
      | Some _ => first_missing header rest
      end
  end.

(** [colMap[col]]: 0 for a name not in the map. *)
Definition colMap (header : row) (col : string) : nat := default O (col_index header col).

(** [filepath.Base(csvPath)[:len-4] + ".las"]; [None] where the slice
    expression panics. *)
Definition lasName (baseName : string) : option string :=
  if (String.length baseName <? 4)%nat then None
  else Some (substring 0 (String.length baseName - 4) baseName +++ ".las").

(** The library functions the converter calls are parameters:
    [strconv.ParseFloat(s, 64)], [parseTimeToGPS] (two [time.Parse]
    layouts and [t.Unix()]), [filepath.Base], [filepath.Join], and
    whether [os.MkdirAll(outputDir, 0755)] succeeds. *)
Section Converter.
Variable ParseFloat : string -> option F64.t.
Variable parseTimeToGPS : string -> option F64.t.
Variable Base : string -> string.
Variable Join : string -> string -> string.
Variable MkdirAll : string -> bool.

(** One iteration of the row loop: the point of row [r], or the column
    whose value is invalid. *)
Definition row_point (header r : row) : string + Point :=
  match parseTimeToGPS (field r (colMap header "Time")) with
  | None => inl "Time"
  | Some gpsTime =>
  match ParseFloat (field r (colMap header "CellE_m")) with
  | None => inl "CellE_m"
  | Some x =>
  match ParseFloat (field r (colMap header "CellN_m")) with
  | None => inl "CellN_m"
  | Some y =>
  match ParseFloat (field r (colMap header "Elevation_m")) with
  | None => inl "Elevation_m"
  | Some z =>
  match Atoi (field r (colMap header "PassCount")) with
  | None => inl "PassCount"
  | Some passCount =>
  match Atoi (field r (colMap header "TargPassCount")) with
  | None => inl "TargPassCount"
  | Some targPass =>
      let '(rr, gg, bb) := determineColor passCount targPass in
      inr (mkPoint x y z 0 rr gg bb 1 gpsTime)
  end end end end end end.

(** [for i := 1; i < len(records); i++]: [i] is the index of [r] in
    [records]; the error reports [row i+1], the record's number counting
    the header as record 1 (not a line number of the file: [csv.Reader]
    skips blank lines, and a quoted field may span lines). *)
Fixpoint convert_rows (header : row) (rows : list row) (i : nat) (w : Writer)
  : convert_error + Writer :=
  match rows with
  | [] => inr w
  | r :: rest =>
      match row_point header r with
      | inl col => inl (ErrInvalidValue (S i) col)
      | inr p => convert_rows header rest (S i) (AddPoint w p)
      end
  end.

(** [ConvertCSVToLAS(csvPath, outputDir)]; [csvs] gives what
    [csv.NewReader(file).ReadAll()] returns for a path ([None] when the
    file cannot be opened or read; [csv.Reader] gives every record the
    field count of the first, so [row[colMap[...]]] is in range), [fs] is
    the file system the LAS file is written to (its files; the
    directories [os.MkdirAll] creates are not part of it). *)
Definition ConvertCSVToLAS (csvs : string -> option (list row)) (csvPath outputDir : string)
    (day year : Z) (fs : FS) : option convert_error * FS :=
  match csvs csvPath with
  | None => (Some ErrOpenCSV, fs)
  | Some records =>
      if (length records <? 2)%nat then (Some ErrCSVEmpty, fs)
      else
        let header := hd [] records in
        match first_missing header required_columns with
        | Some col => (Some (ErrConvMissingColumn col), fs)
        | None =>
          if negb (MkdirAll outputDir) then (Some ErrMkdir, fs) else
            match convert_rows header (tl records) 1 NewWriter with
            | inl e => (Some e, fs)
            | inr w =>
                match lasName (Base csvPath) with
                | None => (Some ErrSlicePanic, fs)
                | Some name =>
                    match Write w (Join outputDir name) day year fs with
                    | (Some e, fs') => (Some (ErrWriteLAS e), fs')
                    | (None, fs') => (None, fs')
                    end
                end
            end
        end
  end.

(** The loop of [ConvertDirectory] over the files [filepath.Glob]
    found, with [successCount]. *)
Fixpoint convert_files (csvs : string -> option (list row)) (files : list string)
    (outputDir : string) (day year : Z) (successCount : nat) (fs : FS)
  : nat * option convert_error * FS :=
  match files with
  | [] => (successCount, None, fs)
  | csvFile :: rest =>
      match ConvertCSVToLAS csvs csvFile outputDir day year fs with
      | (Some e, fs') => (successCount, Some (ErrConvertFile (Base csvFile) e), fs')
      | (None, fs') => convert_files csvs rest outputDir day year (S successCount) fs'
      end
  end.

(** [ConvertDirectory(inputDir, outputDir)], [files] being the result
    of the glob [inputDir/*.csv]. *)
Definition ConvertDirectory (csvs : string -> option (list row)) (files : list string)
    (outputDir : string) (day year : Z) (fs : FS) : nat * option convert_error * FS :=
  match files with
  | [] => (O, Some ErrNoCSVFiles, fs)
  | _ => convert_files csvs files outputDir day year O fs
  end.

End Converter.

(* ------------------------------------------------------------------ *)
(** ** Auxiliary definitions for the statements *)

Definition f64_range (v : Z) : Prop := 0 <= v < 2 ^ 64.

Definition writer_wf (w : Writer) : Prop :=
  f64_range (minX w) /\ f64_range (minY w) /\ f64_range (minZ w) /\
  f64_range (maxX w) /\ f64_range (maxY w) /\ f64_range (maxZ w).

(** The point [ReadPoints] returns for a record [Write] emitted. *)
Definition decoded_point (w : Writer) (h : Header) (p : Point) : Point :=
  mkPoint (unscale (scaled (X p) (minX w) xScale) (XScale h) (XOffset h))
          (unscale (scaled (Y p) (minY w) yScale) (YScale h) (YOffset h))
          (unscale (scaled (Z_ p) (minZ w) zScale) (ZScale h) (ZOffset h))
          (Intensity p) (R p) (G p) (B p) (Classification p) (GPSTime p).

(** The point a decoder gets back for [p] from a file written by [w]:
    coordinates requantised through [int32((v - min) / 0.001)] and
    [float64(x) * 0.001 + min], every other field as it was. *)
Definition requantized (w : Writer) (p : Point) : Point :=
  mkPoint (unscale (scaled (X p) (minX w) xScale) xScale (minX w))
          (unscale (scaled (Y p) (minY w) yScale) yScale (minY w))
          (unscale (scaled (Z_ p) (minZ w) zScale) zScale (minZ w))
          (Intensity p) (R p) (G p) (B p) (Classification p) (GPSTime p).

(** [|a - b| <= 0.001] in exact arithmetic, for finite floats [a], [b]
    (a value [m * 2^e] is compared through integers). *)
Definition exact_value (b : F64.t) : option (Z * Z) :=
  match F64.to_sf b with
  | S754_zero _ => Some (0, 0)
  | S754_finite s m e => Some (if s then Z.neg m else Z.pos m, e)
  | _ => None
  end.

Definition within_milli (a b : F64.t) : bool :=
  match exact_value a, exact_value b with
  | Some (ma, ea), Some (mb, eb) =>
      let e := Z.min ea eb in
      let d := Z.abs (ma * 2 ^ (ea - e) - mb * 2 ^ (eb - e)) in
      if 0 <=? e then 1000 * d * 2 ^ e <=? 1 else 1000 * d <=? 2 ^ (- e)
  | _, _ => false
  end.

(** The float64 nearest to [n / 10^k], i.e. the value of the decimal
    literal n·10^-k (one correctly rounded division of exact operands). *)
Definition f64_decimal (n : Z) (k : nat) : F64.t :=
  F64.div (F64.of_Z n) (F64.of_Z (10 ^ Z.of_nat k)).

(** A point at [x] metres east, all else fixed (colour red, class 1). *)
Definition point_at (x : F64.t) : Point := mkPoint x 0 0 0 65535 0 0 1 0.

(** The record variants of the spec: format 2 (no timestamp) and
    format 3 (with timestamp). *)
Inductive record_variant := WithoutTimestamp | WithTimestamp.

Definition variant_format_id (v : record_variant) : Z :=
  match v with WithoutTimestamp => 2 | WithTimestamp => 3 end.

Definition variant_record_length (v : record_variant) : Z :=
  match v with WithoutTimestamp => 26 | WithTimestamp => 34 end.

(** The 227-byte header of a file as [readHeader] parses it. *)
Definition file_header (f : bytes) : Header := parse_header (slice 0 227 f).

Definition record_length_of (fmt : Z) : nat := if fmt =? 2 then 26%nat else 34%nat.

(** The failure conditions named for the decoder: wrong signature,
    unsupported point format, and a file too short for [PointCount]
    records after the 227-byte header. *)
Definition signature_bad (f : bytes) : Prop := slice 0 4 f <> bytes_of_string "LASF".
Definition format_unsupported (f : bytes) : Prop :=
  PointFormat (file_header f) <> 2 /\ PointFormat (file_header f) <> 3.
Definition truncated (f : bytes) : Prop :=
  (length f < 227 + record_length_of (PointFormat (file_header f))
                    * Z.to_nat (PointCount (file_header f)))%nat.

(** The points a well-formed file holds: record [k] read at offset
    [227 + len * k], GPS time only for format 3. *)
Definition expected_points (f : bytes) : list Point :=
  let h := file_header f in
  let len := record_length_of (PointFormat h) in
  map (fun k => decode_point h (slice (227 + len * k) (227 + len * (k + 1)) f)
                  (if PointFormat h =? 2 then None else Some 20%nat)
                  (if PointFormat h =? 2 then 20%nat else 28%nat))
      (seq 0 (Z.to_nat (PointCount h))).

(** Claim C1 read literally (its coordinate part): decoding what
    [Write] produced gives as many points, each coordinate within 0.001
    of the original in exact arithmetic. *)
Definition roundtrip_within_milli (ps : list Point) : Prop :=
  forall filename day year (fs : FS),
  exists qs,
    decode (snd (Write (writer_of ps) filename day year fs)) filename = inr qs /\
    length qs = length ps /\
    Forall2 (fun p q => within_milli (X p) (X q) = true /\ within_milli (Y p) (Y q) = true /\
                        within_milli (Z_ p) (Z_ q) = true) ps qs.

(** The int32 stored for axis [axis] (0, 1, 2 for X, Y, Z) of record [i]. *)
Definition stored_coordinate (f : bytes) (i axis : nat) : Z :=
  int32_of_uint32 (get_le f (227 + 34 * i + 4 * axis) 4).

(** [(v - offset) / 0.001] in float64, truncated toward zero. *)
Definition truncated_quotient (v offset : F64.t) : option Z :=
  F64.trunc (F64.to_sf (F64.div (F64.sub v offset) F64.milli)).

(** Claim C2 read literally: every stored coordinate is the truncated
    quotient, offset being the axis minimum. *)
Definition stores_truncated_quotients (ps : list Point) : Prop :=
  forall filename day year (fs : FS) f,
    snd (Write (writer_of ps) filename day year fs) !! filename = Some f ->
    forall i p, nth_error ps i = Some p ->
      truncated_quotient (X p) (minX (writer_of ps)) = Some (stored_coordinate f i 0) /\
      truncated_quotient (Y p) (minY (writer_of ps)) = Some (stored_coordinate f i 1) /\
      truncated_quotient (Z_ p) (minZ (writer_of ps)) = Some (stored_coordinate f i 2).

(** Claim C3 read literally: the file carries the format id and record
    length of the variant the caller chose. *)
Definition encodes_chosen_variant : Prop :=
  forall (v : record_variant) (ps : list Point) filename day year (fs : FS) f,
    ps <> [] -> snd (Write (writer_of ps) filename day year fs) !! filename = Some f ->
    nth 104 f 0 = variant_format_id v /\ get_le f 105 2 = variant_record_length v.

(** A small concrete run: two points written to ["a.las"] in an empty
    directory on day 290 of 2026. *)
Definition sample_points : list Point := [point_at 0; point_at (F64.of_Z 1)].
Definition sample_writer : Writer := writer_of sample_points.
Definition sample_file : bytes :=
  header_bytes sample_writer 290 2026 ++ concat (map (point_bytes sample_writer) sample_points).
Definition sample_fs : FS := snd (Write sample_writer "a.las" 290 2026 (∅ : FS)).

(** Two points 3 km apart: the second quotient, 3·10^9, leaves int32. *)
Definition overflow_points : list Point := [point_at 0; point_at (F64.of_Z 3000000)].

(** Two points in range; the second at 128.076 m. *)
Definition milli_points : list Point := [point_at 0; point_at (f64_decimal 128076 3)].

(** How coordinate [v] of record [i] is stored, offset [mn]: the
    conversion [int32((v - mn) / 0.001)], which is the quotient truncated
    toward zero whenever that fits in 32 bits. *)
Definition stored_as_truncation (f : bytes) (i axis : nat) (v mn : F64.t) : Prop :=
  stored_coordinate f i axis = F64.to_int32 (F64.div (F64.sub v mn) F64.milli) /\
  forall q, truncated_quotient v mn = Some q -> - 2 ^ 31 <= q < 2 ^ 31 ->
            stored_coordinate f i axis = q.

(** Claim C5 in its own words: the sentinel for the empty string and
    for ["?"], otherwise at most the first three characters left once
    every ['.'] is removed. *)
Definition normalizeAmp_spec (s : string) : string :=
  if decide (s = EmptyString \/ s = "?"%string) then "no_amp"%string
  else string_of_list_ascii
         (firstn 3 (List.filter (fun c => negb (Ascii.eqb c ".")) (list_ascii_of_string s))).

(** Claim C4: the fixed format ["YYYY/Mon/DD HH:MM:SS.fff"] of given
    fields, and the ["YYYY-MM-DD"] expected back. *)
Definition month_name (mo : Z) : string := nth (Z.to_nat (mo - 1)) shortMonthNames EmptyString.

Definition pad3 (n : Z) : string :=
  String (digit_char (n / 100)) (String (digit_char (n / 10 mod 10))
    (String (digit_char (n mod 10)) EmptyString)).

Definition timestamp (y mo d hh mi ss fff : Z) : string :=
  pad4 y +++ "/" +++ month_name mo +++ "/" +++ pad2 d +++ " " +++ pad2 hh +++ ":" +++
  pad2 mi +++ ":" +++ pad2 ss +++ "." +++ pad3 fff.

Definition iso_date (y mo d : Z) : string := pad4 y +++ "-" +++ pad2 mo +++ "-" +++ pad2 d.

(** ASCII lower case, for comparing month names. *)
Definition lower (c : ascii) : ascii :=
  if (65 <=? code c) && (code c <=? 90) then ascii_of_nat (nat_of_ascii c + 32) else c.

Definition lower_string (s : string) : string := string_of_list_ascii (map lower (list_ascii_of_string s)).

Definition is_letter (c : ascii) : bool :=
  ((65 <=? code c) && (code c <=? 90)) || ((97 <=? code c) && (code c <=? 122)).

(** Claim C4 read literally: exactly the strings of the fixed format
    (four-digit year, one of the twelve abbreviations as written, two
    digits for day, hour, minute and second, three fractional digits)
    are accepted. *)
Definition accepts_exactly_fixed_format : Prop :=
  forall s, (exists out, parseDate s = Some out) <->
            exists y mo d hh mi ss fff,
              0 <= y < 10000 /\ 1 <= mo <= 12 /\ 0 <= d < 100 /\ 0 <= hh < 100 /\
              0 <= mi < 100 /\ 0 <= ss < 100 /\ 0 <= fff < 1000 /\
              s = timestamp y mo d hh mi ss fff.

(** The [GroupKey] [processChunk] gives a record, if its date parses. *)
Definition row_key (timeIdx designIdx ampIdx : nat) (r : row) : option GroupKey :=
  match parseDate (field r timeIdx) with
  | Some date => Some (mkGroupKey date (field r designIdx) (normalizeAmp (field r ampIdx)))
  | None => None
  end.

(** The records of key [k], in input order. *)
Definition rows_with_key (timeIdx designIdx ampIdx : nat) (k : GroupKey) (records : list row)
  : list row :=
  List.filter (fun r => bool_decide (row_key timeIdx designIdx ampIdx r = Some k)) records.

(** The records [reader.Read()] returns without error, in input order. *)
Fixpoint read_records (width : nat) (items : list csv_read) : list row :=
  match items with
  | [] => []
  | it :: rest =>
      match read_record width it with
      | Some r => r :: read_records width rest
      | None => read_records width rest
      end
  end.

(** The entry of a key holding the records [l]: none while [l] is empty. *)
Definition opt_list (l : list row) : option (list row) :=
  match l with [] => None | _ => Some l end.


(** A CSV input with two designs, [A] and [A?], whose file names agree. *)
Definition sample_header : row := ["Time"; "DesignName"; "LastAmp"].
Definition sample_row_A : row := ["2025/Oct/01 09:30:02.800"; "A"; "0.97"].
Definition sample_row_Aq : row := ["2025/Oct/01 09:30:02.800"; "A?"; "0.97"].
Definition sample_records : list row := [sample_row_A; sample_row_Aq; sample_row_A].
Definition sample_items : list csv_read := map CSVRecord sample_records.
Definition sample_key_A : GroupKey := mkGroupKey "2025-10-01" "A" "097".

(** Every [os.OpenFile] succeeds. *)
Definition all_open (name : string) : bool := true.


(** A record whose Time field [parseDate] accepts. *)
Definition date_ok (timeIdx : nat) (r : row) : Prop := parseDate (field r timeIdx) <> None.

(** The number of records whose Time field [parseDate] rejects. *)
Definition bad_dates (timeIdx : nat) (rows : list row) : nat :=
  length (List.filter (fun r => bool_decide (parseDate (field r timeIdx) = None)) rows).

(** Sample data for the sorter's error paths: a record dated 29 February
    2025, which does not exist. *)
Definition sample_bad_row : row := ["2025/Feb/29 09:30:02.800"; "A"; "0.97"].

Definition sample_mixed_records : list row := [sample_row_A; sample_bad_row; sample_row_Aq].
Definition sample_mixed_items : list csv_read := map CSVRecord sample_mixed_records.

(** A read error: a record dated 29 February 2025, then one with two
    fields under a three-field header. *)
Definition sample_short_row : row := ["2025/Oct/01 09:30:02.800"; "A"].
Definition sample_read_error_items : list csv_read :=
  [CSVRecord sample_bad_row; CSVRecord sample_short_row; CSVRecord sample_row_A].

(** A name none of whose characters [sanitizeFilename] deletes. *)
Definition clean_name (s : string) : Prop :=
  Forall (fun c => invalid_filename_char c = false) (list_ascii_of_string s).

(** A conversion run: [strconv.ParseFloat] on the few numbers the sample
    uses (1 and 2) and [parseTimeToGPS] on its one timestamp, as float64
    bit patterns; [filepath.Base] and [filepath.Join] on the paths
    [site/...]. *)
Definition sample_ParseFloat (s : string) : option F64.t :=
  if String.eqb s "1" then Some 4607182418800017408          (* 1.0 *)
  else if String.eqb s "2" then Some 4611686018427387904     (* 2.0 *)
  else None.

Definition sample_parseTimeToGPS (s : string) : option F64.t :=
  if String.eqb s "2025/Oct/01 09:30:02" then Some 4745165893166694400   (* 1759311002.0 *)
  else None.

Definition sample_Base (path : string) : string :=
  if String.prefix "site/" path then substring 5 (String.length path - 5) path else path.

Definition sample_Join (dir name : string) : string := dir +++ "/" +++ name.
Definition sample_MkdirAll (dir : string) : bool := true.

Definition sample_csv_header : row :=
  ["Time"; "CellE_m"; "CellN_m"; "Elevation_m"; "PassCount"; "TargPassCount"].
Definition sample_csv_row1 : row := ["2025/Oct/01 09:30:02"; "1"; "2"; "1"; "3"; "4"].
Definition sample_csv_row2 : row := ["2025/Oct/01 09:30:02"; "2"; "1"; "2"; "4"; "4"].
Definition sample_csv_bad : row := ["2025/Oct/01 09:30:02"; "1"; "x"; "1"; "3"; "4"].

(** [site/a.csv] converts; line 3 of [site/b.csv] has an invalid CellN_m. *)
Definition sample_csvs (path : string) : option (list row) :=
  if String.eqb path "site/a.csv" then Some [sample_csv_header; sample_csv_row1; sample_csv_row2]
  else if String.eqb path "site/b.csv"
  then Some [sample_csv_header; sample_csv_row1; sample_csv_bad; sample_csv_row2]
  else None.

(** The points of [sample_csv_row1] (3 passes of 4: red) and
    [sample_csv_row2] (4 of 4: green). *)
Definition sample_csv_points : list Point :=
  [mkPoint 4607182418800017408 4611686018427387904 4607182418800017408 0 65535 0 0 1
     4745165893166694400;
   mkPoint 4611686018427387904 4607182418800017408 4611686018427387904 0 0 65535 0 1
     4745165893166694400].

Definition sample_dir_run : nat * option convert_error * FS :=
  ConvertDirectory sample_ParseFloat sample_parseTimeToGPS sample_Base sample_Join sample_MkdirAll sample_csvs
    ["site/a.csv"; "site/b.csv"] "out" 290 2026 ∅.

(* ================================================================== *)
(** * Lemmas on the byte layer *)

Lemma length_le_bytes n v : length (le_bytes n v) = n.
Proof. revert v; induction n; intros v; simpl; [reflexivity | now rewrite IHn]. Qed.

Lemma mod_mul_256 v m :
  0 < m -> v mod (2 ^ 8 * m) = v mod 256 + 256 * ((v / 256) mod m).
Proof.
  intros Hm. change (2 ^ 8) with 256. symmetry.
  apply Z.mod_unique with (q := (v / 256) / m).
  - left. pose proof (Z.mod_pos_bound v 256). pose proof (Z.mod_pos_bound (v / 256) m Hm).
    nia.
  - pose proof (Z.div_mod v 256). pose proof (Z.div_mod (v / 256) m). lia.
Qed.

Lemma le_value_le_bytes n v : le_value (le_bytes n v) = v mod 2 ^ (8 * Z.of_nat n).
Proof.
  revert v; induction n as [|n IH]; intros v; simpl le_bytes; simpl le_value.
  - now rewrite Z.mod_1_r.
  - rewrite IH.
    change 255 with (Z.ones 8). rewrite Z.land_ones by lia.
    rewrite Z.shiftr_div_pow2 by lia.
    replace (8 * Z.of_nat (S n)) with (8 + 8 * Z.of_nat n) by lia.
    rewrite Z.pow_add_r by lia.
    rewrite mod_mul_256 by (apply Z.pow_pos_nonneg; lia).
    reflexivity.
Qed.

Lemma le_value_le_bytes_small n v :
  0 <= v < 2 ^ (8 * Z.of_nat n) -> le_value (le_bytes n v) = v.
Proof. intros H. rewrite le_value_le_bytes. now apply Z.mod_small. Qed.

Lemma slice_app_exact (pre mid post : bytes) i n :
  length pre = i -> length mid = n -> slice i (i + n) (pre ++ mid ++ post) = mid.
Proof.
  intros <- <-. unfold slice.
  rewrite List.skipn_app, List.skipn_all, Nat.sub_diag, List.skipn_O; simpl.
  replace (length pre + length mid - length pre)%nat with (length mid) by lia.
  rewrite List.firstn_app, List.firstn_all, Nat.sub_diag; simpl. apply app_nil_r.
Qed.

Lemma to_int32_range b : - 2 ^ 31 <= F64.to_int32 b < 2 ^ 31.
Proof.
  unfold F64.to_int32. destruct (F64.trunc _) as [v|]; [|lia].
  destruct (- 2 ^ 31 <=? v) eqn:E1; destruct (v <? 2 ^ 31) eqn:E2; simpl;
    rewrite ?Z.leb_le, ?Z.ltb_lt, ?Z.leb_gt, ?Z.ltb_ge in *; lia.
Qed.

(** Storing an int32 as [uint32(x)] and reading it back as
    [int32(Uint32(..))] gives [x] again. *)
Lemma int32_roundtrip x :
  - 2 ^ 31 <= x < 2 ^ 31 -> int32_of_uint32 (le_value (le_bytes 4 x)) = x.
Proof.
  intros H. rewrite le_value_le_bytes. change (2 ^ (8 * Z.of_nat 4)) with (2 ^ 32).
  unfold int32_of_uint32.
  destruct (Z.neg_nonneg_cases x) as [Hn|Hp].
  - replace (x mod 2 ^ 32) with (x + 2 ^ 32).
    + destruct (x + 2 ^ 32 <? 2 ^ 31) eqn:E; rewrite ?Z.ltb_lt, ?Z.ltb_ge in E; lia.
    + symmetry. rewrite <- (Z.mod_small (x + 2 ^ 32) (2 ^ 32)) by lia.
      rewrite Z.add_mod, Z.mod_same, Z.add_0_r, Z.mod_mod by lia. reflexivity.
  - rewrite Z.mod_small by lia.
    destruct (x <? 2 ^ 31) eqn:E; rewrite ?Z.ltb_lt, ?Z.ltb_ge in E; lia.
Qed.

(* ================================================================== *)
(** * Lemmas on the writer *)

Lemma upd_min_range v m : f64_range v -> f64_range m -> f64_range (upd_min v m).
Proof. unfold upd_min; destruct (F64.lt v m); auto. Qed.

Lemma upd_max_range v m : f64_range v -> f64_range m -> f64_range (upd_max v m).
Proof. unfold upd_max; destruct (F64.lt m v); auto. Qed.

Lemma AddPoint_wf w p : writer_wf w -> point_wf p -> writer_wf (AddPoint w p).
Proof.
  unfold writer_wf, point_wf, f64_range; intros (?&?&?&?&?&?) (?&?&?&_).
  simpl; repeat split;
    first [ apply upd_min_range | apply upd_max_range ]; unfold f64_range; lia.
Qed.

Lemma writer_of_app_wf ps w :
  writer_wf w -> Forall point_wf ps -> writer_wf (fold_left AddPoint ps w).
Proof.
  revert w; induction ps as [|p ps IH]; intros w Hw Hps; simpl; [exact Hw|].
  inversion Hps; subst. apply IH; auto. now apply AddPoint_wf.
Qed.

Lemma writer_of_wf ps : Forall point_wf ps -> writer_wf (writer_of ps).
Proof.
  intros H. apply writer_of_app_wf; [|exact H].
  unfold writer_wf, f64_range, NewWriter, F64.max_float64, F64.neg_max_float64; simpl; lia.
Qed.

Lemma fold_AddPoint_points ps w : points (fold_left AddPoint ps w) = points w ++ ps.
Proof.
  revert w; induction ps as [|p ps IH]; intros w; simpl.
  - now rewrite app_nil_r.
  - rewrite IH. simpl. now rewrite <- app_assoc.
Qed.

Lemma writer_of_points ps : points (writer_of ps) = ps.
Proof. unfold writer_of. now rewrite fold_AddPoint_points. Qed.

Lemma length_header_bytes w day year : length (header_bytes w day year) = 227%nat.
Proof. reflexivity. Qed.

Lemma length_point_bytes w p : length (point_bytes w p) = 34%nat.
Proof. reflexivity. Qed.

Lemma fold_append_file name (ps : list Point) (enc : Point -> bytes) fs c :
  fs !! name = Some c ->
  fold_left (fun acc p => append_file name (enc p) acc) ps fs !! name
  = Some (c ++ concat (map enc ps)).
Proof.
  revert fs c; induction ps as [|p ps IH]; intros fs c Hc; simpl.
  - now rewrite app_nil_r.
  - rewrite (IH _ (c ++ enc p)).
    + now rewrite <- app_assoc.
    + unfold append_file. rewrite lookup_insert_eq, Hc. reflexivity.
Qed.

(** The file [Write] leaves behind: the header, then one record per
    point, in order. *)
Lemma Write_contents w filename day year fs :
  points w <> [] ->
  Write w filename day year fs
  = (None, fold_left (fun acc p => append_file filename (point_bytes w p) acc) (points w)
             (append_file filename (header_bytes w day year) (<[filename := []]> fs))) /\
  (snd (Write w filename day year fs)) !! filename
  = Some (header_bytes w day year ++ concat (map (point_bytes w) (points w))).
Proof.
  intros Hne. unfold Write.
  destruct (length (points w) =? 0)%nat eqn:E.
  { apply Nat.eqb_eq, length_zero_iff_nil in E. contradiction. }
  split; [reflexivity|]. cbn [snd].
  apply fold_append_file. unfold append_file.
  rewrite lookup_insert_eq, lookup_insert_eq. reflexivity.
Qed.

(* ================================================================== *)
(** * Lemmas on the reader *)

(** What [readHeader] recovers from the header [Write] builds. *)
Lemma parse_header_bytes w day year :
  writer_wf w ->
  parse_header (header_bytes w day year)
  = mkHeader 1 2 3 (Z.of_nat (length (points w)) mod 2 ^ 32) 34
      xScale yScale zScale (minX w) (minY w) (minZ w)
      (minX w) (minY w) (minZ w) (maxX w) (maxY w) (maxZ w).
Proof.
  unfold writer_wf, f64_range. intros (?&?&?&?&?&?).
  unfold parse_header.
  change (get_le (header_bytes w day year) 107 4)
    with (le_value (le_bytes 4 (Z.of_nat (length (points w))))).
  change (get_le (header_bytes w day year) 105 2) with (le_value (le_bytes 2 34)).
  change (get_le (header_bytes w day year) 131 8) with (le_value (le_bytes 8 xScale)).
  change (get_le (header_bytes w day year) 139 8) with (le_value (le_bytes 8 yScale)).
  change (get_le (header_bytes w day year) 147 8) with (le_value (le_bytes 8 zScale)).
  change (get_le (header_bytes w day year) 155 8) with (le_value (le_bytes 8 (minX w))).
  change (get_le (header_bytes w day year) 163 8) with (le_value (le_bytes 8 (minY w))).
  change (get_le (header_bytes w day year) 171 8) with (le_value (le_bytes 8 (minZ w))).
  change (get_le (header_bytes w day year) 179 8) with (le_value (le_bytes 8 (maxX w))).
  change (get_le (header_bytes w day year) 187 8) with (le_value (le_bytes 8 (maxY w))).
  change (get_le (header_bytes w day year) 195 8) with (le_value (le_bytes 8 (maxZ w))).
  change (get_le (header_bytes w day year) 203 8) with (le_value (le_bytes 8 (minX w))).
  change (get_le (header_bytes w day year) 211 8) with (le_value (le_bytes 8 (minY w))).
  change (get_le (header_bytes w day year) 219 8) with (le_value (le_bytes 8 (minZ w))).
  change (nth 24 (header_bytes w day year) 0) with 1.
  change (nth 25 (header_bytes w day year) 0) with 2.
  change (nth 104 (header_bytes w day year) 0) with 3.
  rewrite !le_value_le_bytes.
  change (2 ^ (8 * Z.of_nat 8)) with (2 ^ 64).
  rewrite !(Z.mod_small (minX w)), !(Z.mod_small (minY w)), !(Z.mod_small (minZ w)),
    !(Z.mod_small (maxX w)), !(Z.mod_small (maxY w)), !(Z.mod_small (maxZ w)) by lia.
  reflexivity.
Qed.

Lemma readHeader_bytes w day year rest :
  writer_wf w ->
  readHeader (header_bytes w day year ++ rest)
  = (inr (mkHeader 1 2 3 (Z.of_nat (length (points w)) mod 2 ^ 32) 34
            xScale yScale zScale (minX w) (minY w) (minZ w)
            (minX w) (minY w) (minZ w) (maxX w) (maxY w) (maxZ w)), 227%nat).
Proof.
  intros Hw. unfold readHeader, read_full.
  assert (E : slice 0 227 (header_bytes w day year ++ rest) = header_bytes w day year)
    by exact (slice_app_exact [] (header_bytes w day year) rest 0 227 eq_refl
                (length_header_bytes w day year)).
  cbn [Nat.add]. rewrite E, length_header_bytes. cbn [Nat.eqb].
  rewrite decide_True by reflexivity.
  now rewrite parse_header_bytes.
Qed.

(** Reading [length ps] records of length [len] laid out back to back. *)
Lemma read_loop_records (enc : Point -> bytes) h len ts rgb ps pre post i acc :
  Forall (fun q => length (enc q) = len) ps ->
  read_loop h len ts rgb (pre ++ concat (map enc ps) ++ post) (length ps) i (length pre) acc
  = (inr (acc ++ map (fun q => decode_point h (enc q) ts rgb) ps),
     (length pre + len * length ps)%nat).
Proof.
  revert pre i acc; induction ps as [|q ps IH]; intros pre i acc Hl.
  - simpl. rewrite (app_nil_r acc). f_equal. lia.
  - inversion Hl as [|? ? Hq Hps]; subst.
    cbn [length read_loop map concat].
    unfold read_full.
    rewrite <- app_assoc, (slice_app_exact pre (enc q) _ (length pre) (length (enc q)))
      by reflexivity.
    rewrite Nat.eqb_refl.
    replace (pre ++ enc q ++ concat (map enc ps) ++ post)
      with ((pre ++ enc q) ++ concat (map enc ps) ++ post) by now rewrite <- app_assoc.
    replace (length pre + length (enc q))%nat with (length (pre ++ enc q))
      by now rewrite length_app.
    rewrite IH by exact Hps.
    rewrite length_app, <- app_assoc. simpl. f_equal. nia.
Qed.

Lemma decode_point_bytes w h p :
  point_wf p -> decode_point h (point_bytes w p) (Some 20%nat) 28 = decoded_point w h p.
Proof.
  unfold point_wf. intros (?&?&?&?&?&?&?&?&?).
  unfold decode_point, decoded_point.
  change (get_le (point_bytes w p) 0 4) with (le_value (le_bytes 4 (scaled (X p) (minX w) xScale))).
  change (get_le (point_bytes w p) 4 4) with (le_value (le_bytes 4 (scaled (Y p) (minY w) yScale))).
  change (get_le (point_bytes w p) 8 4) with (le_value (le_bytes 4 (scaled (Z_ p) (minZ w) zScale))).
  change (get_le (point_bytes w p) 12 2) with (le_value (le_bytes 2 (Intensity p))).
  change (get_le (point_bytes w p) 28 2) with (le_value (le_bytes 2 (R p))).
  change (get_le (point_bytes w p) (28 + 2) 2) with (le_value (le_bytes 2 (G p))).
  change (get_le (point_bytes w p) (28 + 4) 2) with (le_value (le_bytes 2 (B p))).
  change (get_le (point_bytes w p) 20 8) with (le_value (le_bytes 8 (GPSTime p))).
  change (nth 15 (point_bytes w p) 0) with (Classification p).
  unfold scaled. rewrite !int32_roundtrip by apply to_int32_range.
  rewrite !le_value_le_bytes_small by (simpl; lia).
  reflexivity.
Qed.

Lemma decode_written w filename day year fs :
  points w <> [] -> Forall point_wf (points w) -> writer_wf w ->
  Z.of_nat (length (points w)) < 2 ^ 32 ->
  decode (snd (Write w filename day year fs)) filename
  = inr (map (requantized w) (points w)).
Proof.
  intros Hne Hwf Hw Hlen.
  destruct (Write_contents w filename day year fs Hne) as [_ Hc].
  unfold decode, NewReader. rewrite Hc.
  rewrite readHeader_bytes by exact Hw.
  unfold ReadPoints. cbn [header file pos PointFormat Z.eqb Pos.eqb fst snd].
  unfold readPointsFormat3. cbn [header file pos PointCount].
  rewrite Z.mod_small by lia. rewrite Nat2Z.id.
  rewrite <- (app_nil_r (concat (map (point_bytes w) (points w)))).
  change 227%nat with (length (header_bytes w day year)).
  rewrite (read_loop_records (point_bytes w)).
  - cbn [fst app]. f_equal. apply map_ext_in. intros p Hp.
    rewrite decode_point_bytes.
    + reflexivity.
    + rewrite List.Forall_forall in Hwf. apply Hwf. exact Hp.
  - apply List.Forall_forall. intros. apply length_point_bytes.
Qed.


Lemma length_slice i j (f : bytes) : length (slice i j f) = Nat.min (j - i) (length f - i).
Proof. unfold slice. now rewrite List.length_firstn, List.length_skipn. Qed.

Lemma read_full_ok f p n :
  (p + n <= length f)%nat -> read_full f p n = (Some (slice p (p + n) f), (p + n)%nat).
Proof.
  intros H. unfold read_full. rewrite length_slice.
  replace (Nat.min (p + n - p) (length f - p)) with n by lia.
  now rewrite Nat.eqb_refl.
Qed.

Lemma read_full_short f p n :
  (0 < n)%nat -> (length f < p + n)%nat -> fst (read_full f p n) = None.
Proof.
  intros Hn H. unfold read_full. rewrite length_slice.
  destruct (Nat.min (p + n - p) (length f - p) =? n)%nat eqn:E; [|reflexivity].
  apply Nat.eqb_eq in E. lia.
Qed.

Lemma read_loop_ok h len ts rgb f n : forall i p acc,
  (p + len * n <= length f)%nat ->
  fst (read_loop h len ts rgb f n i p acc)
  = inr (acc ++ map (fun k => decode_point h (slice (p + len * k) (p + len * (k + 1)) f) ts rgb)
                    (seq 0 n)).
Proof.
  induction n as [|n IH]; intros i p acc H; simpl.
  - now rewrite app_nil_r.
  - rewrite read_full_ok by lia.
    rewrite IH by lia.
    rewrite <- app_assoc. simpl. f_equal. f_equal. f_equal.
    + replace (p + len * 0)%nat with p by lia.
      now replace (p + len * 1)%nat with (p + len)%nat by lia.
    + rewrite <- (seq_shift n 0), map_map. apply map_ext. intros k.
      replace (p + len + len * k)%nat with (p + len * S k)%nat by lia.
      now replace (p + len + len * (k + 1))%nat with (p + len * (S k + 1))%nat by lia.
Qed.

Lemma read_loop_short h len ts rgb f n : forall i p acc,
  (0 < len)%nat -> (p <= length f)%nat -> (length f < p + len * n)%nat ->
  exists e, fst (read_loop h len ts rgb f n i p acc) = inl e.
Proof.
  induction n as [|n IH]; intros i p acc Hl Hp H; [lia|]. simpl.
  destruct (Nat.le_gt_cases (p + len) (length f)) as [Hle|Hgt].
  - rewrite read_full_ok by exact Hle. apply IH; lia.
  - destruct (read_full f p len) as [[d|] p'] eqn:E.
    + pose proof (read_full_short f p len Hl Hgt) as Hs. rewrite E in Hs. discriminate.
    + eexists. reflexivity.
Qed.

Lemma readHeader_short f : (length f < 227)%nat -> fst (readHeader f) = inl ErrHeader.
Proof.
  intros H. unfold readHeader.
  pose proof (read_full_short f 0 227 ltac:(lia) H) as Hs.
  destruct (read_full f 0 227) as [[h|] p]; [discriminate|reflexivity].
Qed.

Lemma slice_0_4_header f : slice 0 4 (slice 0 227 f) = slice 0 4 f.
Proof. unfold slice. rewrite !List.skipn_O, List.firstn_firstn. reflexivity. Qed.

Lemma readHeader_long f :
  (227 <= length f)%nat ->
  readHeader f = if decide (slice 0 4 f = bytes_of_string "LASF")
                 then (inr (file_header f), 227%nat) else (inl ErrSignature, 227%nat).
Proof.
  intros H. unfold readHeader. rewrite read_full_ok by (simpl; lia). simpl (0 + 227)%nat.
  rewrite slice_0_4_header. reflexivity.
Qed.

Lemma decode_file fs filename f :
  fs !! filename = Some f ->
  decode fs filename =
  if (length f <? 227)%nat then inl ErrHeader
  else if decide (slice 0 4 f = bytes_of_string "LASF")
       then fst (ReadPoints (mkReader f 227 (file_header f)))
       else inl ErrSignature.
Proof.
  intros Hf. unfold decode, NewReader. rewrite Hf.
  destruct (Nat.ltb_spec (length f) 227) as [Hs|Hl].
  - pose proof (readHeader_short f Hs) as E.
    destruct (readHeader f) as [[e|h] p]; simpl in E; congruence.
  - rewrite readHeader_long by lia. destruct (decide _); reflexivity.
Qed.

Lemma ReadPoints_file f p :
  fst (ReadPoints (mkReader f p (file_header f))) =
  if PointFormat (file_header f) =? 2
  then fst (read_loop (file_header f) 26 None 20 f (Z.to_nat (PointCount (file_header f))) 0 227 [])
  else if PointFormat (file_header f) =? 3
  then fst (read_loop (file_header f) 34 (Some 20%nat) 28 f
              (Z.to_nat (PointCount (file_header f))) 0 227 [])
  else inl (ErrFormat (PointFormat (file_header f))).
Proof.
  unfold ReadPoints, readPointsFormat2, readPointsFormat3. cbn [header file pos fst].
  destruct (PointFormat (file_header f) =? 2); [reflexivity|].
  destruct (PointFormat (file_header f) =? 3); reflexivity.
Qed.

(** [ReadPoints] does not depend on the offset of the handle. *)
Lemma ReadPoints_pos r p : ReadPoints (mkReader (file r) p (header r)) = ReadPoints r.
Proof. reflexivity. Qed.

Lemma slice_mid (pre mid post : bytes) k i n :
  length pre = k -> (i + n <= length mid)%nat ->
  slice (k + i) (k + i + n) (pre ++ mid ++ post) = slice i (i + n) mid.
Proof.
  intros <- H. unfold slice.
  replace (length pre + i + n - (length pre + i))%nat with n by lia.
  replace (i + n - i)%nat with n by lia.
  rewrite List.skipn_app, List.skipn_all2 by lia.
  replace (length pre + i - length pre)%nat with i by lia. simpl.
  rewrite List.skipn_app. replace (i - length mid)%nat with 0%nat by lia.
  rewrite List.skipn_O, List.firstn_app, List.length_skipn.
  replace (n - (length mid - i))%nat with 0%nat by lia. simpl. apply app_nil_r.
Qed.

Lemma get_le_mid (pre mid post : bytes) k i n :
  length pre = k -> (i + n <= length mid)%nat ->
  get_le (pre ++ mid ++ post) (k + i) n = get_le mid i n.
Proof. intros. unfold get_le. now rewrite slice_mid. Qed.

Lemma length_records w ps : length (concat (map (point_bytes w) ps)) = (34 * length ps)%nat.
Proof.
  induction ps as [|p ps IH]; [reflexivity|].
  cbn [map concat length]. rewrite length_app, IH, length_point_bytes. lia.
Qed.

(** Record [i] of the file sits at offset [227 + 34 * i]. *)
Lemma record_at w day year ps i p :
  nth_error ps i = Some p ->
  exists pre post, header_bytes w day year ++ concat (map (point_bytes w) ps)
                   = pre ++ point_bytes w p ++ post /\ length pre = (227 + 34 * i)%nat.
Proof.
  intros Hi. destruct (nth_error_split ps i Hi) as (l1 & l2 & -> & Hl).
  exists (header_bytes w day year ++ concat (map (point_bytes w) l1)),
         (concat (map (point_bytes w) l2)).
  split.
  - rewrite map_app, concat_app. cbn [map concat]. now rewrite !app_assoc.
  - rewrite length_app, length_header_bytes, length_records. lia.
Qed.

(* ================================================================== *)
(** * Claims on the LAS codec *)

(** C7: on an existing file [f], decoding fails when the first four
    bytes are not ["LASF"], when the point format is neither 2 nor 3, or
    when the file is shorter than the header plus [PointCount] records of
    the format's length; otherwise it succeeds and returns the
    [PointCount] records read back to back from offset 227 (26-byte
    records with GPS time 0 for format 2, 34-byte records with the GPS
    time of bytes 20..27 for format 3). *)
Theorem C7_decode_cases fs filename f :
  fs !! filename = Some f ->
  ((signature_bad f \/ format_unsupported f \/ truncated f) -> exists e, decode fs filename = inl e) /\
  (~ signature_bad f -> ~ format_unsupported f -> ~ truncated f ->
     decode fs filename = inr (expected_points f) /\
     length (expected_points f) = Z.to_nat (PointCount (file_header f)) /\
     (PointFormat (file_header f) = 2 ->
        Forall (fun q => GPSTime q = F64.zero) (expected_points f))).
Proof.
  intros Hf. rewrite (decode_file fs filename f Hf).
  unfold signature_bad, format_unsupported, truncated, record_length_of.
  split.
  - intros Hbad.
    destruct (Nat.ltb_spec (length f) 227) as [Hs|Hl]; [eexists; reflexivity|].
    destruct (decide _) as [Hsig|Hsig]; [|eexists; reflexivity].
    rewrite ReadPoints_file.
    destruct (Z.eqb_spec (PointFormat (file_header f)) 2) as [E2|E2].
    + destruct Hbad as [Hb|[Hb|Hb]]; [contradiction|tauto|].
      change (if true then 26%nat else 34%nat) with 26%nat in Hb.
      apply read_loop_short; lia.
    + destruct (Z.eqb_spec (PointFormat (file_header f)) 3) as [E3|E3];
        [|eexists; reflexivity].
      destruct Hbad as [Hb|[Hb|Hb]]; [contradiction|tauto|].
      change (if false then 26%nat else 34%nat) with 34%nat in Hb.
      apply read_loop_short; lia.
  - intros Hsig Hfmt Htr.
    destruct (Nat.ltb_spec (length f) 227) as [Hs|Hl].
    { exfalso. apply Htr. destruct (_ =? 2); lia. }
    destruct (decide _) as [Hs|Hs]; [|contradiction].
    rewrite ReadPoints_file. unfold expected_points, record_length_of.
    destruct (Z.eqb_spec (PointFormat (file_header f)) 2) as [E2|E2].
    + rewrite read_loop_ok by lia. split; [reflexivity|split; [now rewrite length_map, length_seq|]].
      intros _. apply List.Forall_forall. intros q Hq.
      apply in_map_iff in Hq as (k & <- & _). reflexivity.
    + destruct (Z.eqb_spec (PointFormat (file_header f)) 3) as [E3|E3]; [|tauto].
      rewrite read_loop_ok by lia. split; [reflexivity|split; [now rewrite length_map, length_seq|]].
      intros E. contradiction.
Qed.

Lemma C7_witness :
  sample_fs !! "a.las" = Some sample_file /\
  ((signature_bad sample_file \/ format_unsupported sample_file \/ truncated sample_file) ->
     exists e, decode sample_fs "a.las" = inl e) /\
  (~ signature_bad sample_file -> ~ format_unsupported sample_file -> ~ truncated sample_file ->
     decode sample_fs "a.las" = inr (expected_points sample_file) /\
     length (expected_points sample_file) = Z.to_nat (PointCount (file_header sample_file)) /\
     (PointFormat (file_header sample_file) = 2 ->
        Forall (fun q => GPSTime q = F64.zero) (expected_points sample_file))).
Proof.
  assert (H : sample_fs !! "a.las" = Some sample_file) by (vm_compute; reflexivity).
  split; [exact H | exact (C7_decode_cases sample_fs "a.las" sample_file H)].
Defined.

(** C10: [ReadPoints] seeks to offset 227 before reading, so its result
    does not depend on where the handle stands: on any reader, a second
    call returns what the first returned. *)
Theorem C10_ReadPoints_twice r :
  fst (ReadPoints (snd (ReadPoints r))) = fst (ReadPoints r) /\
  forall p, ReadPoints (mkReader (file r) p (header r)) = ReadPoints r.
Proof. split; reflexivity. Qed.

(** C6: [Write] on a writer without points returns the "no points to
    write" error and leaves the file system as it was: no file is
    created or written. *)
Theorem C6_Write_empty w filename day year fs :
  points w = [] -> Write w filename day year fs = (Some ErrNoPoints, fs).
Proof. intros H. unfold Write. now rewrite H. Qed.

Lemma C6_witness :
  points NewWriter = [] /\
  Write NewWriter "a.las" 290 2026 sample_fs = (Some ErrNoPoints, sample_fs).
Proof.
  split; [reflexivity|]. apply C6_Write_empty. reflexivity.
Defined.

Lemma to_int32_trunc b v :
  F64.trunc (F64.to_sf b) = Some v -> - 2 ^ 31 <= v < 2 ^ 31 -> F64.to_int32 b = v.
Proof.
  intros H Hr. unfold F64.to_int32. rewrite H.
  destruct (Z.leb_spec (- 2 ^ 31) v), (Z.ltb_spec v (2 ^ 31)); simpl; lia.
Qed.

Lemma stored_record w day year ps i p axis :
  nth_error ps i = Some p -> (axis < 3)%nat ->
  stored_coordinate (header_bytes w day year ++ concat (map (point_bytes w) ps)) i axis
  = int32_of_uint32 (get_le (point_bytes w p) (4 * axis) 4).
Proof.
  intros Hi Ha. destruct (record_at w day year ps i p Hi) as (pre & post & E & Hl).
  unfold stored_coordinate. rewrite E, <- Hl.
  apply f_equal, get_le_mid; [reflexivity|]. rewrite length_point_bytes. lia.
Qed.

Lemma get_le_header w day year rest i n :
  (i + n <= 227)%nat ->
  get_le (header_bytes w day year ++ rest) i n = get_le (header_bytes w day year) i n.
Proof.
  intros H. exact (get_le_mid [] (header_bytes w day year) rest 0 i n eq_refl
                     ltac:(rewrite length_header_bytes; lia)).
Qed.

(** C3: [Write] takes no record variant: every file it writes has point
    format 3 (byte 104), record length 34 (bytes 105..106) and length
    227 + 34 N. *)
Theorem C3_format_fixed ps filename day year fs :
  ps <> [] ->
  exists f, snd (Write (writer_of ps) filename day year fs) !! filename = Some f /\
    nth 104 f 0 = 3 /\ get_le f 105 2 = 34 /\ length f = (227 + 34 * length ps)%nat.
Proof.
  intros Hne. pose proof (writer_of_points ps) as Hp.
  destruct (Write_contents (writer_of ps) filename day year fs) as [_ Hc];
    [now rewrite Hp|].
  rewrite Hp in Hc. eexists. split; [exact Hc|]. split; [|split].
  - rewrite app_nth1 by (rewrite length_header_bytes; lia). reflexivity.
  - rewrite get_le_header by lia. reflexivity.
  - rewrite length_app, length_header_bytes, length_records. reflexivity.
Qed.

Lemma C3_witness :
  sample_points <> [] /\
  exists f, snd (Write (writer_of sample_points) "a.las" 290 2026 (∅ : FS)) !! "a.las" = Some f /\
    nth 104 f 0 = 3 /\ get_le f 105 2 = 34 /\ length f = (227 + 34 * length sample_points)%nat.
Proof.
  split; [discriminate|]. apply C3_format_fixed. discriminate.
Defined.

(** C3 as stated fails: asked for the variant without timestamp, the
    file written for one point still says format 3. *)
Lemma C3_counterexample : ~ encodes_chosen_variant.
Proof.
  intros H.
  destruct (H WithoutTimestamp sample_points "a.las" 290 2026 ∅ sample_file) as [H1 _].
  - discriminate.
  - vm_compute. reflexivity.
  - vm_compute in H1. discriminate.
Qed.

Lemma stored_as_truncation_record w day year ps i p axis v mn :
  nth_error ps i = Some p -> (axis < 3)%nat ->
  get_le (point_bytes w p) (4 * axis) 4 = le_value (le_bytes 4 (scaled v mn F64.milli)) ->
  stored_as_truncation (header_bytes w day year ++ concat (map (point_bytes w) ps)) i axis v mn.
Proof.
  intros Hi Ha E. unfold stored_as_truncation.
  rewrite (stored_record w day year ps i p axis Hi Ha), E.
  rewrite int32_roundtrip by apply to_int32_range.
  split; [reflexivity|]. intros q Hq Hr. now apply to_int32_trunc.
Qed.

(** C2: record [i] of a written file stores each coordinate of point
    [i] as [int32((v - offset) / 0.001)]: the float64 quotient truncated
    toward zero when that fits in int32 (on amd64 -2^31 otherwise). The
    scale in the header is 0.001 on every axis and the offset the
    writer's running minimum [minX], [minY], [minZ]. *)
Theorem C2_stored_coordinates ps filename day year fs i p :
  Forall point_wf ps -> nth_error ps i = Some p ->
  let w := writer_of ps in
  exists f, snd (Write w filename day year fs) !! filename = Some f /\
    get_le f 131 8 = F64.milli /\ get_le f 139 8 = F64.milli /\ get_le f 147 8 = F64.milli /\
    get_le f 155 8 = minX w /\ get_le f 163 8 = minY w /\ get_le f 171 8 = minZ w /\
    stored_as_truncation f i 0 (X p) (minX w) /\
    stored_as_truncation f i 1 (Y p) (minY w) /\
    stored_as_truncation f i 2 (Z_ p) (minZ w).
Proof.
  intros Hwf Hi w.
  assert (Hne : ps <> []) by (intros ->; destruct i; discriminate).
  pose proof (writer_of_points ps) as Hp.
  pose proof (parse_header_bytes w day year (writer_of_wf ps Hwf)) as Hh.
  pose proof (f_equal XScale Hh) as Hsx. pose proof (f_equal YScale Hh) as Hsy.
  pose proof (f_equal ZScale Hh) as Hsz. pose proof (f_equal XOffset Hh) as Hox.
  pose proof (f_equal YOffset Hh) as Hoy. pose proof (f_equal ZOffset Hh) as Hoz.
  cbn [XScale YScale ZScale XOffset YOffset ZOffset parse_header] in *.
  destruct (Write_contents w filename day year fs) as [_ Hc]; [subst w; now rewrite Hp|].
  fold w in Hp. rewrite Hp in Hc. eexists. split; [exact Hc|].
  rewrite !get_le_header by lia.
  split; [exact Hsx|]. split; [exact Hsy|]. split; [exact Hsz|].
  split; [exact Hox|]. split; [exact Hoy|]. split; [exact Hoz|].
  split; [|split]; eapply stored_as_truncation_record; eauto; reflexivity.
Qed.

Lemma C2_witness :
  Forall point_wf sample_points /\ nth_error sample_points 1 = Some (point_at (F64.of_Z 1)) /\
  let w := writer_of sample_points in
  exists f, snd (Write w "a.las" 290 2026 (∅ : FS)) !! "a.las" = Some f /\
    get_le f 131 8 = F64.milli /\ get_le f 139 8 = F64.milli /\ get_le f 147 8 = F64.milli /\
    get_le f 155 8 = minX w /\ get_le f 163 8 = minY w /\ get_le f 171 8 = minZ w /\
    stored_as_truncation f 1 0 (X (point_at (F64.of_Z 1))) (minX w) /\
    stored_as_truncation f 1 1 (Y (point_at (F64.of_Z 1))) (minY w) /\
    stored_as_truncation f 1 2 (Z_ (point_at (F64.of_Z 1))) (minZ w).
Proof.
  assert (Hwf : Forall point_wf sample_points)
    by (repeat constructor; unfold point_wf; vm_compute; repeat split; discriminate).
  assert (Hi : nth_error sample_points 1 = Some (point_at (F64.of_Z 1))) by reflexivity.
  split; [exact Hwf|]. split; [exact Hi|].
  exact (C2_stored_coordinates sample_points "a.las" 290 2026 ∅ 1 _ Hwf Hi).
Defined.

(** C2 as stated fails: with points at 0 m and 3000 km, the second
    quotient truncates to 3·10^9, which does not fit in int32; the file
    stores -2^31 instead. *)
Lemma C2_counterexample : ~ stores_truncated_quotients overflow_points.
Proof.
  intros H.
  assert (Hf : snd (Write (writer_of overflow_points) "a.las" 290 2026 (∅ : FS)) !! "a.las"
               = Some (header_bytes (writer_of overflow_points) 290 2026 ++
                       concat (map (point_bytes (writer_of overflow_points)) overflow_points)))
    by (vm_compute; reflexivity).
  destruct (H _ _ _ _ _ Hf 1%nat (point_at (F64.of_Z 3000000)) eq_refl) as [H1 _].
  vm_compute in H1. discriminate.
Qed.

(** C1 (amended): for a non-empty list of fewer than 2^32 points,
    [Write] succeeds and decoding its file gives back one point per
    point, in order, with intensity, colour, classification and GPS time
    bit-exact and each coordinate requantised: float64(int32((v - min) /
    0.001)) * 0.001 + min, computed in float64 ([requantized]). *)
Theorem C1_roundtrip ps filename day year fs :
  ps <> [] -> Forall point_wf ps -> Z.of_nat (length ps) < 2 ^ 32 ->
  fst (Write (writer_of ps) filename day year fs) = None /\
  decode (snd (Write (writer_of ps) filename day year fs)) filename
  = inr (map (requantized (writer_of ps)) ps).
Proof.
  intros Hne Hwf Hlen. pose proof (writer_of_points ps) as Hp.
  split.
  - destruct (Write_contents (writer_of ps) filename day year fs) as [E _];
      [now rewrite Hp|]. now rewrite E.
  - rewrite decode_written; rewrite ?Hp; auto using writer_of_wf.
Qed.

Lemma C1_witness :
  sample_points <> [] /\ Forall point_wf sample_points /\
  Z.of_nat (length sample_points) < 2 ^ 32 /\
  fst (Write (writer_of sample_points) "a.las" 290 2026 (∅ : FS)) = None /\
  decode (snd (Write (writer_of sample_points) "a.las" 290 2026 (∅ : FS))) "a.las"
  = inr (map (requantized (writer_of sample_points)) sample_points).
Proof.
  assert (Hne : sample_points <> []) by discriminate.
  assert (Hwf : Forall point_wf sample_points)
    by (repeat constructor; unfold point_wf; vm_compute; repeat split; discriminate).
  assert (Hlen : Z.of_nat (length sample_points) < 2 ^ 32) by (simpl; lia).
  split; [exact Hne|]. split; [exact Hwf|]. split; [exact Hlen|].
  exact (C1_roundtrip sample_points "a.las" 290 2026 ∅ Hne Hwf Hlen).
Defined.

(** C1 as stated fails even in range: a point at 128.076 m (next to
    one at 0 m) comes back at 128.075 m, off by slightly more than 0.001
    since 128.076 / 0.001 evaluates below 128076 in float64 and the
    conversion truncates. *)
Lemma C1_counterexample : ~ roundtrip_within_milli milli_points.
Proof.
  intros H. destruct (H "a.las" 290 2026 ∅) as (qs & Hd & _ & Hf). clear H.
  vm_compute in Hd. injection Hd as <-.
  inversion Hf as [|p1 q1 l1 k1 _ Hf1]; subst.
  inversion Hf1 as [|p2 q2 l2 k2 Hx _]; subst.
  destruct Hx as [Hx _]. vm_compute in Hx. discriminate.
Qed.

(* ================================================================== *)
(** * Claims on the converter and the sorter *)

(** C8: the colour is red when [passCount < targPass], green when they
    are equal and blue when [passCount > targPass]. *)
Theorem C8_determineColor :
  (forall a b, determineColor a b =
     match Z.compare a b with
     | Lt => (65535, 0, 0) | Eq => (0, 65535, 0) | Gt => (0, 0, 65535)
     end) /\
  determineColor 1 4 = (65535, 0, 0) /\ determineColor 4 4 = (0, 65535, 0) /\
  determineColor 5 4 = (0, 0, 65535).
Proof.
  split; [|repeat split].
  intros a b. unfold determineColor.
  destruct (Z.compare_spec a b) as [E|E|E].
  - subst b. now rewrite Z.ltb_irrefl, Z.eqb_refl.
  - apply Z.ltb_lt in E. now rewrite E.
  - rewrite (proj2 (Z.ltb_ge a b)) by lia. rewrite (proj2 (Z.eqb_neq a b)) by lia.
    reflexivity.
Qed.

Lemma list_remove_char c s :
  list_ascii_of_string (remove_char c s)
  = List.filter (fun c0 => negb (Ascii.eqb c0 c)) (list_ascii_of_string s).
Proof.
  induction s as [|c0 s IH]; [reflexivity|]. simpl.
  destruct (Ascii.eqb c0 c); simpl; now rewrite IH.
Qed.

Lemma length_list_ascii s : List.length (list_ascii_of_string s) = String.length s.
Proof. induction s as [|c s IH]; simpl; [reflexivity|now rewrite IH]. Qed.

Lemma substring_firstn n s :
  substring 0 n s = string_of_list_ascii (firstn n (list_ascii_of_string s)).
Proof.
  revert s; induction n as [|n IH]; intros s; [now destruct s|].
  destruct s as [|c s]; [reflexivity|]. simpl. now rewrite IH.
Qed.

Lemma length_normalizeAmp s :
  s <> EmptyString -> s <> "?"%string -> (String.length (normalizeAmp s) <= 3)%nat.
Proof.
  intros H1 H2. unfold normalizeAmp.
  destruct (String.eqb_spec s EmptyString); [contradiction|].
  destruct (String.eqb_spec s "?"); [contradiction|]. simpl.
  destruct (Nat.ltb_spec 3 (String.length (remove_char "." s))).
  - rewrite substring_firstn, <- length_list_ascii.
    rewrite list_ascii_of_string_of_list_ascii, List.length_firstn. lia.
  - lia.
Qed.

(** C5: [normalizeAmp] maps [""] and ["?"] to the sentinel ["no_amp"]
    and any other string to its first three characters (at most) after
    every ['.'] has been removed, by truncation alone; no other input
    gives the sentinel. The examples of the specification hold. *)
Theorem C5_normalizeAmp :
  (forall s, normalizeAmp s = normalizeAmp_spec s) /\
  (forall s, normalizeAmp s = "no_amp"%string <-> s = EmptyString \/ s = "?"%string) /\
  normalizeAmp "0.97" = "097"%string /\ normalizeAmp "2.10" = "210"%string /\
  normalizeAmp "1.5" = "15"%string /\ normalizeAmp "0.9789" = "097"%string.
Proof.
  split; [|split; [|repeat split]].
  - intros s. unfold normalizeAmp, normalizeAmp_spec.
    destruct (String.eqb_spec s EmptyString) as [->|H1]; [reflexivity|].
    destruct (String.eqb_spec s "?") as [->|H2]; [reflexivity|].
    rewrite decide_False by tauto. cbn [orb].
    rewrite <- list_remove_char.
    destruct (Nat.ltb_spec 3 (String.length (remove_char "." s))) as [Hl|Hl].
    + apply substring_firstn.
    + rewrite List.firstn_all2 by (rewrite length_list_ascii; lia).
      symmetry. apply string_of_list_ascii_of_string.
  - intros s. split.
    + intros E. destruct (decide (s = EmptyString \/ s = "?"%string)) as [H|H]; [exact H|].
      pose proof (length_normalizeAmp s ltac:(tauto) ltac:(tauto)) as L.
      rewrite E in L. simpl in L. lia.
    + intros [-> | ->]; reflexivity.
Qed.

(* ------------------------------------------------------------------ *)
(** ** Lemmas on [time.Parse] *)

Lemma code_ascii_of_nat k : (k < 256)%nat -> code (ascii_of_nat k) = Z.of_nat k.
Proof. intros H. unfold code. now rewrite nat_ascii_embedding. Qed.

Lemma digit_char_spec n :
  0 <= n < 10 -> is_digit (digit_char n) = true /\ digit_value (digit_char n) = n.
Proof.
  intros H. unfold is_digit, digit_value, digit_char.
  rewrite code_ascii_of_nat by lia. rewrite Z2Nat.id by lia.
  split; [apply andb_true_intro; split; apply Z.leb_le|]; lia.
Qed.

Lemma digit_char_value c : is_digit c = true -> digit_char (digit_value c) = c.
Proof.
  intros _. unfold digit_char, digit_value, code.
  replace (48 + (Z.of_nat (nat_of_ascii c) - 48)) with (Z.of_nat (nat_of_ascii c)) by lia.
  rewrite Nat2Z.id. apply ascii_nat_embedding.
Qed.

Lemma digit_value_range c : is_digit c = true -> 0 <= digit_value c < 10.
Proof.
  unfold is_digit, digit_value. intros H.
  apply andb_true_iff in H as [H1 H2]. apply Z.leb_le in H1, H2. lia.
Qed.

Lemma is_digit_neq c x : is_digit c = true -> is_digit x = false -> Ascii.eqb c x = false.
Proof. intros H1 H2. destruct (Ascii.eqb_spec c x); [subst; congruence|reflexivity]. Qed.

Lemma append_cons c s t : String c s +++ t = String c (s +++ t).
Proof. reflexivity. Qed.

Lemma append_nil_l t : EmptyString +++ t = t.
Proof. reflexivity. Qed.

Lemma append_assoc_str s t u : (s +++ t) +++ u = s +++ t +++ u.
Proof. induction s as [|c s IH]; [reflexivity|]. rewrite !append_cons, IH. reflexivity. Qed.

Lemma substring_0_length s : substring 0 (String.length s) s = s.
Proof. induction s as [|c s IH]; simpl; [reflexivity|now rewrite IH]. Qed.

Lemma digits_of_2 n :
  0 <= n < 100 -> 0 <= n / 10 < 10 /\ 0 <= n mod 10 < 10 /\ 10 * (n / 10) + n mod 10 = n.
Proof.
  intros H. pose proof (Z.div_mod n 10 ltac:(lia)). pose proof (Z.mod_pos_bound n 10 ltac:(lia)).
  repeat split; lia.
Qed.

Lemma getnum_digits a b rest fixed :
  is_digit a = true -> is_digit b = true ->
  getnum (String a (String b rest)) fixed = Some (10 * digit_value a + digit_value b, rest).
Proof. intros Ha Hb. unfold getnum. now rewrite Ha, Hb. Qed.

Lemma getnum_pad2 n rest fixed :
  0 <= n < 100 -> getnum (pad2 n +++ rest) fixed = Some (n, rest).
Proof.
  intros H. destruct (digits_of_2 n H) as (H1 & H2 & E).
  destruct (digit_char_spec _ H1) as [D1 V1]. destruct (digit_char_spec _ H2) as [D2 V2].
  unfold pad2. rewrite !append_cons, append_nil_l. cbn [getnum].
  rewrite D1, D2, V1, V2, E. reflexivity.
Qed.

Lemma skip_empty v : skip v EmptyString = Some v.
Proof. reflexivity. Qed.

Lemma skip_lit c rest :
  Ascii.eqb c " " = false -> skip (String c EmptyString +++ rest) (String c EmptyString) = Some rest.
Proof.
  intros H. unfold skip. rewrite append_cons, append_nil_l. cbn.
  rewrite H, Ascii.eqb_refl. reflexivity.
Qed.

Lemma skip_space_pad2 n rest :
  0 <= n < 100 -> skip (" " +++ pad2 n +++ rest) " " = Some (pad2 n +++ rest).
Proof.
  intros H. destruct (digits_of_2 n H) as (H1 & _ & _).
  destruct (digit_char_spec _ H1) as [D1 _].
  unfold skip, pad2. rewrite !append_cons, append_nil_l. cbn.
  rewrite (is_digit_neq _ " " D1 eq_refl). reflexivity.
Qed.

Lemma parse_year y rest st :
  0 <= y < 10000 -> parse_std stdLongYear (pad4 y +++ rest) st = Some (rest, set_year y st).
Proof.
  intros H.
  assert (Ha : 0 <= y / 1000 < 10) by (split; [apply Z.div_pos|apply Z.div_lt_upper_bound]; lia).
  pose proof (Z.mod_pos_bound (y / 100) 10 ltac:(lia)) as Hb.
  pose proof (Z.mod_pos_bound (y / 10) 10 ltac:(lia)) as Hc.
  pose proof (Z.mod_pos_bound y 10 ltac:(lia)) as Hd.
  destruct (digit_char_spec _ Ha) as [Da Va]. destruct (digit_char_spec _ Hb) as [Db Vb].
  destruct (digit_char_spec _ Hc) as [Dc Vc]. destruct (digit_char_spec _ Hd) as [Dd Vd].
  unfold pad4. rewrite !append_cons, append_nil_l. cbn [parse_std]. unfold isDigit. cbn [String.get String.length].
  rewrite Da. cbn [Nat.ltb Nat.leb orb negb substring]. unfold atoi.
  rewrite (is_digit_neq _ "-" Da eq_refl), (is_digit_neq _ "+" Da eq_refl).
  replace (substring 0 0 rest) with EmptyString by (destruct rest; reflexivity).
  cbn [leadingInt_acc]. rewrite Da, Db, Dc, Dd. cbn [leadingInt_acc].
  rewrite Va, Vb, Vc, Vd.
  replace (S (S (S (S (String.length rest)))) - 4)%nat with (String.length rest) by lia.
  rewrite substring_0_length. do 3 f_equal.
  assert (E1 : y / 10 / 10 = y / 100) by (rewrite Z.div_div by lia; reflexivity).
  assert (E2 : y / 100 / 10 = y / 1000) by (rewrite Z.div_div by lia; reflexivity).
  pose proof (Z.div_mod y 10 ltac:(lia)). pose proof (Z.div_mod (y / 10) 10 ltac:(lia)).
  pose proof (Z.div_mod (y / 100) 10 ltac:(lia)). lia.
Qed.

Lemma substring_0_0 s : substring 0 0 s = EmptyString.
Proof. now destruct s. Qed.

Lemma lookup_from_3 i tab a b c rest :
  Forall (fun v => String.length v = 3%nat) tab ->
  lookup_from i tab (String a (String b (String c rest)))
  = option_map (fun p => (fst p, rest))
      (lookup_from i tab (String a (String b (String c EmptyString)))).
Proof.
  revert i; induction tab as [|v tab IH]; intros i Hl; [reflexivity|].
  inversion Hl as [|? ? Hv Htab]; subst.
  destruct v as [|x [|y [|z [|w v]]]]; try discriminate.
  cbn [lookup_from String.length substring]. rewrite !substring_0_0.
  destruct (match_ _ _); cbn [andb Nat.leb].
  - cbn [option_map fst]. f_equal. f_equal.
    replace (S (S (S (String.length rest))) - 3)%nat with (String.length rest) by lia.
    cbn [substring]. apply substring_0_length.
  - now apply IH.
Qed.

Lemma month_name_chars mo :
  1 <= mo <= 12 ->
  exists a b c, month_name mo = String a (String b (String c EmptyString)) /\
    lookup shortMonthNames (String a (String b (String c EmptyString))) = Some (mo - 1, EmptyString).
Proof.
  intros H.
  assert (C : mo = 1 \/ mo = 2 \/ mo = 3 \/ mo = 4 \/ mo = 5 \/ mo = 6 \/ mo = 7 \/ mo = 8 \/
              mo = 9 \/ mo = 10 \/ mo = 11 \/ mo = 12) by lia.
  repeat destruct C as [C|C]; subst mo;
    (do 3 eexists; split; [cbv; reflexivity | reflexivity]).
Qed.

Lemma parse_month mo rest st :
  1 <= mo <= 12 -> parse_std stdMonth (month_name mo +++ rest) st = Some (rest, set_month mo st).
Proof.
  intros H. destruct (month_name_chars mo H) as (a & b & c & E & L).
  rewrite E, !append_cons, append_nil_l. cbn [parse_std]. unfold lookup in *.
  rewrite lookup_from_3 by (repeat constructor). rewrite L. cbn [option_map fst].
  now rewrite Z.sub_add.
Qed.

Lemma parse_day d rest st :
  0 <= d < 100 -> parse_std stdZeroDay (pad2 d +++ rest) st = Some (rest, set_day d st).
Proof. intros H. cbn [parse_std]. now rewrite getnum_pad2. Qed.

Lemma ltb_false_range n hi :
  0 <= n < hi -> (n <? 0) || (hi <=? n) = false.
Proof.
  intros H. apply orb_false_intro; [apply Z.ltb_ge|apply Z.leb_gt]; lia.
Qed.

Lemma parse_hour h rest st :
  0 <= h < 24 -> parse_std stdHour (pad2 h +++ rest) st = Some (rest, set_hour h st).
Proof.
  intros H. cbn [parse_std]. rewrite getnum_pad2 by lia.
  now rewrite (ltb_false_range h 24 H).
Qed.

Lemma parse_min m rest st :
  0 <= m < 60 -> parse_std stdZeroMinute (pad2 m +++ rest) st = Some (rest, set_min m st).
Proof.
  intros H. cbn [parse_std]. rewrite getnum_pad2 by lia.
  now rewrite (ltb_false_range m 60 H).
Qed.

Lemma parse_sec s rest st :
  0 <= s < 60 -> parse_std stdZeroSecond (pad2 s +++ rest) st = Some (rest, set_sec s st).
Proof.
  intros H. cbn [parse_std]. rewrite getnum_pad2 by lia.
  now rewrite (ltb_false_range s 60 H).
Qed.

Lemma frac_chars a b c st :
  is_digit a = true -> is_digit b = true -> is_digit c = true ->
  parse_std stdFracSecond9 (String "." (String a (String b (String c EmptyString)))) st
  = Some (EmptyString,
          set_nsec ((100 * digit_value a + 10 * digit_value b + digit_value c) * 10 ^ 6) st).
Proof.
  intros Da Db Dc. simpl. rewrite Da, Db, Dc. simpl.
  unfold atoi. rewrite (is_digit_neq _ "-" Da eq_refl), (is_digit_neq _ "+" Da eq_refl).
  simpl. rewrite Da, Db, Dc. simpl.
  pose proof (digit_value_range a Da). pose proof (digit_value_range b Db).
  pose proof (digit_value_range c Dc).
  rewrite (proj2 (Z.ltb_ge _ 0)) by lia. do 3 f_equal. lia.
Qed.

Lemma parse_frac f st :
  0 <= f < 1000 ->
  parse_std stdFracSecond9 ("." +++ pad3 f) st = Some (EmptyString, set_nsec (f * 10 ^ 6) st).
Proof.
  intros H.
  assert (Ha : 0 <= f / 100 < 10) by (split; [apply Z.div_pos|apply Z.div_lt_upper_bound]; lia).
  pose proof (Z.mod_pos_bound (f / 10) 10 ltac:(lia)) as Hb.
  pose proof (Z.mod_pos_bound f 10 ltac:(lia)) as Hc.
  destruct (digit_char_spec _ Ha) as [Da Va]. destruct (digit_char_spec _ Hb) as [Db Vb].
  destruct (digit_char_spec _ Hc) as [Dc Vc].
  unfold pad3. rewrite !append_cons, append_nil_l.
  rewrite (frac_chars _ _ _ st Da Db Dc), Va, Vb, Vc. do 3 f_equal.
  assert (E1 : f / 10 / 10 = f / 100) by (rewrite Z.div_div by lia; reflexivity).
  pose proof (Z.div_mod f 10 ltac:(lia)). pose proof (Z.div_mod (f / 10) 10 ltac:(lia)).
  lia.
Qed.

(** Every string of the fixed format with a valid date and time is
    accepted, and its date comes back as ["YYYY-MM-DD"]. *)
Lemma parseDate_timestamp y mo d hh mi ss fff :
  0 <= y < 10000 -> 1 <= mo <= 12 -> 1 <= d <= daysIn mo y ->
  0 <= hh < 24 -> 0 <= mi < 60 -> 0 <= ss < 60 -> 0 <= fff < 1000 ->
  parseDate (timestamp y mo d hh mi ss fff) = Some (iso_date y mo d).
Proof.
  intros Hy Hmo Hd Hh Hmi Hs Hf.
  assert (Hdays : daysIn mo y <= 31).
  { unfold daysIn. destruct (_ && _); [lia|].
    assert (C : mo = 1 \/ mo = 2 \/ mo = 3 \/ mo = 4 \/ mo = 5 \/ mo = 6 \/ mo = 7 \/
                mo = 8 \/ mo = 9 \/ mo = 10 \/ mo = 11 \/ mo = 12) by lia.
    repeat destruct C as [C|C]; subst mo; simpl; lia. }
  unfold parseDate, time_Parse, timestamp. cbn [layout_chunks parse_loop].
  rewrite skip_empty, parse_year by lia. cbv iota beta.
  rewrite skip_lit by reflexivity. rewrite parse_month by lia. cbv iota beta.
  rewrite skip_lit by reflexivity. rewrite parse_day by lia. cbv iota beta.
  rewrite skip_space_pad2 by lia. rewrite parse_hour by lia. cbv iota beta.
  rewrite skip_lit by reflexivity. rewrite parse_min by lia. cbv iota beta.
  rewrite skip_lit by reflexivity. rewrite parse_sec by lia. cbv iota beta.
  rewrite skip_empty, parse_frac by lia. cbv iota beta. cbn [String.eqb].
  cbn [p_month p_day p_year set_nsec set_sec set_min set_hour set_day set_month set_year
       pstate_init].
  rewrite (proj2 (Z.ltb_ge mo 0)), (proj2 (Z.ltb_ge d 0)) by lia.
  rewrite (proj2 (Z.ltb_ge d 1)), (proj2 (Z.ltb_ge (daysIn mo y) d)) by lia.
  reflexivity.
Qed.

(** Inversion of the steps: what a successful parse says about its input. *)

Lemma all_ascii (P : ascii -> bool) :
  forallb P (map ascii_of_nat (seq 0 256)) = true -> forall c, P c = true.
Proof.
  intros H c. rewrite forallb_forall in H. rewrite <- (ascii_nat_embedding c). apply H.
  apply in_map. apply in_seq. pose proof (nat_ascii_bounded c). lia.
Qed.

Lemma match_char_lower c1 c2 :
  is_letter c2 = true -> match_char c1 c2 = true -> lower c1 = lower c2.
Proof.
  intros H2 H.
  assert (Hall : forall c1 c2,
    implb (is_letter c2 && match_char c1 c2) (Ascii.eqb (lower c1) (lower c2)) = true).
  { intros x. apply all_ascii. revert x. apply all_ascii. vm_compute. reflexivity. }
  specialize (Hall c1 c2). rewrite H2, H in Hall. cbn in Hall.
  now apply Ascii.eqb_eq.
Qed.

Lemma lower_string_cons c s : lower_string (String c s) = String (lower c) (lower_string s).
Proof. reflexivity. Qed.

Lemma match_lower s1 s2 :
  (forall c, In c (list_ascii_of_string s2) -> is_letter c = true) ->
  String.length s1 = String.length s2 -> match_ s1 s2 = true ->
  lower_string s1 = lower_string s2.
Proof.
  revert s2; induction s1 as [|c1 s1 IH]; intros [|c2 s2] Hl Hlen H; try discriminate;
    [reflexivity|].
  cbn [match_] in H. apply andb_prop in H as [H1 H2].
  rewrite !lower_string_cons. f_equal.
  - apply match_char_lower; [apply Hl; now left | exact H1].
  - apply IH; [intros c Hc; apply Hl; now right | cbn in Hlen; lia | exact H2].
Qed.

Lemma lookup_from_inv i tab val m r :
  lookup_from i tab val = Some (m, r) ->
  exists k v, nth_error tab k = Some v /\ m = i + Z.of_nat k /\
    (String.length v <= String.length val)%nat /\
    match_ (substring 0 (String.length v) val) v = true /\
    r = substring (String.length v) (String.length val - String.length v) val.
Proof.
  revert i; induction tab as [|v tab IH]; intros i H; [discriminate|].
  cbn [lookup_from] in H.
  destruct ((String.length v <=? String.length val)%nat &&
            match_ (substring 0 (String.length v) val) v) eqn:E.
  - injection H as <- <-. apply andb_prop in E as [E1 E2]. apply Nat.leb_le in E1.
    exists O, v. repeat split; auto. lia.
  - destruct (IH _ H) as (k & w & Hk & Hm & Hr). exists (S k), w. split; [exact Hk|].
    split; [lia|exact Hr].
Qed.

Lemma month_letters v c :
  In v shortMonthNames -> In c (list_ascii_of_string v) -> is_letter c = true.
Proof.
  intros Hv Hc. cbn in Hv.
  repeat destruct Hv as [<-|Hv]; try contradiction;
    cbn in Hc; repeat destruct Hc as [<-|Hc]; try contradiction; reflexivity.
Qed.

Lemma month_lengths : Forall (fun v => String.length v = 3%nat) shortMonthNames.
Proof. repeat constructor. Qed.

Lemma parse_month_inv v v' st st' :
  parse_std stdMonth v st = Some (v', st') ->
  exists mo m3, 1 <= mo <= 12 /\ String.length m3 = 3%nat /\
    lower_string m3 = lower_string (month_name mo) /\ v = m3 +++ v' /\ st' = set_month mo st.
Proof.
  cbn [parse_std]. intros H.
  destruct (lookup shortMonthNames v) as [[m r]|] eqn:E; [|discriminate].
  injection H as <- <-.
  destruct v as [|a [|b [|c rest]]]; try discriminate.
  unfold lookup in E. rewrite lookup_from_3 in E by exact month_lengths.
  destruct (lookup_from 0 shortMonthNames (String a (String b (String c EmptyString))))
    as [[m' r']|] eqn:E3; [|discriminate].
  cbn [option_map fst] in E. injection E as <- <-.
  destruct (lookup_from_inv _ _ _ _ _ E3) as (k & w & Hk & Hm & Hlen & Hmatch & _).
  assert (Hw : In w shortMonthNames) by (eapply nth_error_In; eauto).
  assert (Hw3 : String.length w = 3%nat).
  { pose proof month_lengths as ML. rewrite List.Forall_forall in ML. now apply ML. }
  assert (Hk12 : (k < length shortMonthNames)%nat).
  { apply List.nth_error_Some. rewrite Hk. discriminate. }
  cbn [length shortMonthNames] in Hk12.
  exists (m' + 1), (String a (String b (String c EmptyString))).
  assert (Hname : month_name (m' + 1) = w).
  { unfold month_name. subst m'. replace (0 + Z.of_nat k + 1 - 1) with (Z.of_nat k) by lia.
    rewrite Nat2Z.id. now apply nth_error_nth. }
  split; [lia|]. split; [reflexivity|]. split.
  - rewrite Hname. apply match_lower.
    + intros x Hx. now apply (month_letters w).
    + now rewrite Hw3.
    + rewrite Hw3 in Hmatch. exact Hmatch.
  - split; [reflexivity|]. reflexivity.
Qed.

Lemma div_mod_digit a b : 0 <= b < 10 -> (10 * a + b) / 10 = a /\ (10 * a + b) mod 10 = b.
Proof.
  intros H. split.
  - symmetry. apply (Z.div_unique _ _ _ b); lia.
  - symmetry. apply (Z.mod_unique _ _ a); lia.
Qed.

Lemma pad2_digits a b :
  is_digit a = true -> is_digit b = true ->
  pad2 (10 * digit_value a + digit_value b) = String a (String b EmptyString).
Proof.
  intros Da Db. pose proof (digit_value_range b Db) as Hb.
  destruct (div_mod_digit (digit_value a) _ Hb) as [E1 E2].
  unfold pad2. rewrite E1, E2, !digit_char_value by assumption. reflexivity.
Qed.

Lemma pad4_digits a b c d :
  is_digit a = true -> is_digit b = true -> is_digit c = true -> is_digit d = true ->
  pad4 (10 * (10 * (10 * digit_value a + digit_value b) + digit_value c) + digit_value d)
  = String a (String b (String c (String d EmptyString))).
Proof.
  intros Da Db Dc Dd.
  pose proof (digit_value_range b Db) as Hb. pose proof (digit_value_range c Dc) as Hc.
  pose proof (digit_value_range d Dd) as Hd.
  destruct (div_mod_digit (10 * (10 * digit_value a + digit_value b) + digit_value c) _ Hd)
    as [E1 E2].
  destruct (div_mod_digit (10 * digit_value a + digit_value b) _ Hc) as [E3 E4].
  destruct (div_mod_digit (digit_value a) _ Hb) as [E5 E6].
  unfold pad4.
  rewrite <- (Z.div_div _ 10 100), <- (Z.div_div _ 10 10), <- (Z.div_div _ 10 10) by lia.
  rewrite ?E1, ?E2, ?E3, ?E4, ?E5, ?E6.
  rewrite !digit_char_value by assumption. reflexivity.
Qed.

Lemma parse_year_inv v v' st st' :
  parse_std stdLongYear v st = Some (v', st') ->
  exists y, 0 <= y < 10000 /\ v = pad4 y +++ v' /\ st' = set_year y st.
Proof.
  intros H. destruct v as [|a [|b [|c [|d rest]]]]; try discriminate.
  cbn [parse_std String.length isDigit String.get Nat.ltb Nat.leb orb negb] in H.
  destruct (is_digit a) eqn:Da; [|discriminate]. cbn [negb orb] in H.
  cbn [substring] in H. rewrite substring_0_0 in H.
  replace (S (S (S (S (String.length rest)))) - 4)%nat with (String.length rest) in H by lia.
  rewrite substring_0_length in H. unfold atoi in H.
  rewrite (is_digit_neq _ "-" Da eq_refl), (is_digit_neq _ "+" Da eq_refl) in H.
  cbn [leadingInt_acc] in H. rewrite Da in H.
  destruct (is_digit b) eqn:Db; [|discriminate].
  destruct (is_digit c) eqn:Dc; [|discriminate].
  destruct (is_digit d) eqn:Dd; [|discriminate].
  injection H as <- <-.
  pose proof (digit_value_range a Da). pose proof (digit_value_range b Db).
  pose proof (digit_value_range c Dc). pose proof (digit_value_range d Dd).
  exists (10 * (10 * (10 * digit_value a + digit_value b) + digit_value c) + digit_value d).
  split; [lia|]. split; [|f_equal; lia].
  rewrite pad4_digits by assumption. reflexivity.
Qed.

Lemma parse_day_inv v v' st st' :
  parse_std stdZeroDay v st = Some (v', st') ->
  exists d, 0 <= d < 100 /\ v = pad2 d +++ v' /\ st' = set_day d st.
Proof.
  cbn [parse_std]. intros H.
  destruct (getnum v true) as [[d r]|] eqn:E; [|discriminate]. injection H as <- <-.
  destruct v as [|a [|b rest]]; unfold getnum in E; [discriminate| |].
  - destruct (is_digit a); discriminate.
  - destruct (is_digit a) eqn:Da; [|discriminate].
    destruct (is_digit b) eqn:Db; [|discriminate]. injection E as <- <-.
    pose proof (digit_value_range a Da). pose proof (digit_value_range b Db).
    exists (10 * digit_value a + digit_value b). split; [lia|]. split; [|reflexivity].
    rewrite pad2_digits by assumption. reflexivity.
Qed.

Lemma skip_slash_inv v v' : skip v "/" = Some v' -> v = "/" +++ v'.
Proof.
  unfold skip. destruct v as [|c v]; [discriminate|]. cbn [String.length skip_rounds].
  destruct (Ascii.eqb "/" " ") eqn:E; [discriminate|].
  destruct (Ascii.eqb c "/") eqn:Ec; [|discriminate].
  apply Ascii.eqb_eq in Ec. subst c. intros H. injection H as <-. reflexivity.
Qed.

(** The elements after the day set none of the date fields. *)
Definition time_field (s : std) : bool :=
  match s with
  | stdHour | stdZeroMinute | stdZeroSecond | stdFracSecond9 => true
  | _ => false
  end.

Lemma parse_std_time_field s v v' st st' :
  time_field s = true -> parse_std s v st = Some (v', st') ->
  p_year st' = p_year st /\ p_month st' = p_month st /\ p_day st' = p_day st.
Proof.
  intros Hs H. destruct s; try discriminate; cbn [parse_std] in H;
    repeat case_match; simplify_eq; auto.
Qed.

Lemma parse_loop_time_fields chunks v st st' :
  forallb (fun ch => time_field (snd ch)) chunks = true -> parse_loop chunks v st = Some st' ->
  p_year st' = p_year st /\ p_month st' = p_month st /\ p_day st' = p_day st.
Proof.
  revert v st; induction chunks as [|[prefix s] chunks IH]; intros v st Hc H.
  - cbn in H. destruct (String.eqb v EmptyString); simplify_eq; auto.
  - cbn [forallb snd] in Hc. apply andb_prop in Hc as [Hs Hc].
    cbn [parse_loop] in H. destruct (skip v prefix) as [v1|]; [|discriminate].
    destruct (parse_std s v1 st) as [[v2 st2]|] eqn:E; [|discriminate].
    destruct (parse_std_time_field _ _ _ _ _ Hs E) as (E1 & E2 & E3).
    destruct (IH _ _ Hc H) as (F1 & F2 & F3). rewrite F1, F2, F3. auto.
Qed.

Lemma parseDate_sound s out :
  parseDate s = Some out ->
  exists y mo d m3 rest,
    0 <= y < 10000 /\ 1 <= mo <= 12 /\ 1 <= d <= daysIn mo y /\
    String.length m3 = 3%nat /\ lower_string m3 = lower_string (month_name mo) /\
    s = pad4 y +++ "/" +++ m3 +++ "/" +++ pad2 d +++ rest /\
    out = iso_date y mo d.
Proof.
  unfold parseDate, time_Parse. intros H.
  destruct (parse_loop layout_chunks s pstate_init) as [st|] eqn:E; [|discriminate].
  cbn [layout_chunks parse_loop] in E. rewrite skip_empty in E.
  destruct (parse_std stdLongYear s pstate_init) as [[v1 st1]|] eqn:E1; [|discriminate].
  destruct (skip v1 "/") as [v2|] eqn:S2; [|discriminate].
  destruct (parse_std stdMonth v2 st1) as [[v3 st3]|] eqn:E3; [|discriminate].
  destruct (skip v3 "/") as [v4|] eqn:S4; [|discriminate].
  destruct (parse_std stdZeroDay v4 st3) as [[v5 st5]|] eqn:E5; [|discriminate].
  destruct (parse_year_inv _ _ _ _ E1) as (y & Hy & -> & ->).
  apply skip_slash_inv in S2 as ->.
  destruct (parse_month_inv _ _ _ _ E3) as (mo & m3 & Hmo & Hm3 & Hlow & -> & ->).
  apply skip_slash_inv in S4 as ->.
  destruct (parse_day_inv _ _ _ _ E5) as (d & Hd & -> & ->).
  pose proof (parse_loop_time_fields
    [(" "%string, stdHour); (":"%string, stdZeroMinute); (":"%string, stdZeroSecond);
     (EmptyString, stdFracSecond9)] v5 _ st eq_refl E) as (F1 & F2 & F3).
  cbn [p_year p_month p_day set_day set_month set_year pstate_init] in F1, F2, F3.
  rewrite F1, F2, F3 in H.
  rewrite (proj2 (Z.ltb_ge mo 0)), (proj2 (Z.ltb_ge d 0)) in H by lia.
  destruct ((d <? 1) || (daysIn mo y <? d)) eqn:V; [discriminate|].
  apply orb_false_iff in V as [V1 V2]. apply Z.ltb_ge in V1, V2.
  injection H as <-. cbn [p_year p_month p_day set_day set_month].
  exists y, mo, d, m3, v5.
  repeat split; try lia; try assumption; rewrite ?F1, ?append_assoc_str; reflexivity.
Qed.

Lemma length_append_str s t : String.length (s +++ t) = (String.length s + String.length t)%nat.
Proof. induction s as [|c s IH]; [reflexivity|]. rewrite append_cons. cbn. now rewrite IH. Qed.

Lemma timestamp_length y mo d hh mi ss fff :
  1 <= mo <= 12 -> String.length (timestamp y mo d hh mi ss fff) = 24%nat.
Proof.
  intros H. destruct (month_name_chars mo H) as (a & b & c & E & _).
  unfold timestamp. rewrite E, !length_append_str. reflexivity.
Qed.

(* ------------------------------------------------------------------ *)
(** ** Claim C4 *)

(** C4 (as stated: exactly the fixed format is accepted) is refuted:
    ["2025/Oct/01 09:30:02"], without a fractional part, is accepted. *)
Lemma C4_counterexample : ~ accepts_exactly_fixed_format.
Proof.
  intros H.
  assert (Hp : parseDate "2025/Oct/01 09:30:02" = Some "2025-10-01") by (vm_compute; reflexivity).
  destruct (proj1 (H _) (ex_intro _ _ Hp)) as (y & mo & d & hh & mi & ss & fff & _ & Hmo & _ & _ & _ & _ & _ & Es).
  apply (f_equal String.length) in Es. rewrite timestamp_length in Es by exact Hmo.
  vm_compute in Es. discriminate.
Qed.

(** C4 (amended): every timestamp [YYYY/Mon/DD HH:MM:SS.fff] of a valid
    calendar date and time of day gives [YYYY-MM-DD]; conversely any
    accepted string starts with [YYYY/Mon/DD] (month name in any letter
    case) of a valid calendar date and gives that date, whatever the rest
    of the string is. The format is not exact: the fraction may be
    missing, its mark may be a comma, the hour may have one digit and the
    month name any case; an invalid calendar date is rejected. *)
Theorem C4_parseDate :
  (forall y mo d hh mi ss fff,
     0 <= y < 10000 -> 1 <= mo <= 12 -> 1 <= d <= daysIn mo y ->
     0 <= hh < 24 -> 0 <= mi < 60 -> 0 <= ss < 60 -> 0 <= fff < 1000 ->
     parseDate (timestamp y mo d hh mi ss fff) = Some (iso_date y mo d)) /\
  (forall s out,
     parseDate s = Some out ->
     exists y mo d m3 rest,
       0 <= y < 10000 /\ 1 <= mo <= 12 /\ 1 <= d <= daysIn mo y /\
       String.length m3 = 3%nat /\ lower_string m3 = lower_string (month_name mo) /\
       s = pad4 y +++ "/" +++ m3 +++ "/" +++ pad2 d +++ rest /\
       out = iso_date y mo d) /\
  parseDate "2025/Oct/01 09:30:02" = Some "2025-10-01" /\
  parseDate "2025/oCT/01  9:30:02,8" = Some "2025-10-01" /\
  parseDate "2025/Feb/29 09:30:02.800" = None.
Proof.
  split; [exact parseDate_timestamp|]. split; [exact parseDate_sound|].
  split; [vm_compute; reflexivity|]. split; vm_compute; reflexivity.
Qed.

Lemma C4_witness : parseDate (timestamp 2025 10 1 9 30 2 800) = Some (iso_date 2025 10 1).
Proof.
  assert (Hd : daysIn 10 2025 = 31) by reflexivity.
  apply (proj1 C4_parseDate); lia.
Defined.

(* ------------------------------------------------------------------ *)
(** ** Lemmas on the grouping of [SortCSV] *)

Lemma opt_list_snoc l r : opt_list (l ++ [r]) = Some (l ++ [r]).
Proof. now destruct l. Qed.

Lemma default_opt_list l : default [] (opt_list l) = l.
Proof. now destruct l. Qed.

Lemma opt_list_Some l rows : opt_list l = Some rows -> rows = l.
Proof. destruct l; cbn; congruence. Qed.

Lemma opt_list_nonempty l : l <> [] -> opt_list l = Some l.
Proof. destruct l; [contradiction|reflexivity]. Qed.

Lemma rows_with_key_app ti di ai k l1 l2 :
  rows_with_key ti di ai k (l1 ++ l2) = rows_with_key ti di ai k l1 ++ rows_with_key ti di ai k l2.
Proof. unfold rows_with_key. apply List.filter_app. Qed.

Lemma rows_with_key_In ti di ai k l r :
  In r (rows_with_key ti di ai k l) <-> In r l /\ row_key ti di ai r = Some k.
Proof.
  unfold rows_with_key. rewrite List.filter_In. now rewrite bool_decide_eq_true.
Qed.

Lemma processChunk_rows_no_error rows ti di ai g n n' e g' :
  processChunk_rows rows ti di ai g true n = ((n', e), g') -> e = None.
Proof.
  revert g n; induction rows as [|r rows IH]; intros g n H; cbn in H.
  - congruence.
  - destruct (parseDate (field r ti)); eapply IH; exact H.
Qed.

Lemma processChunk_rows_groups rows ti di ai g skip n n' g' (F : GroupKey -> list row) :
  (forall k, g !! k = opt_list (F k)) ->
  processChunk_rows rows ti di ai g skip n = ((n', None), g') ->
  forall k, g' !! k = opt_list (F k ++ rows_with_key ti di ai k rows).
Proof.
  revert g n F; induction rows as [|r rows IH]; intros g n F Hg H k.
  - cbn in H. injection H as _ <-. rewrite app_nil_r. apply Hg.
  - change (r :: rows) with ([r] ++ rows). rewrite rows_with_key_app, app_assoc.
    cbn [processChunk_rows] in H.
    destruct (parseDate (field r ti)) as [date|] eqn:P.
    + set (key := mkGroupKey date (field r di) (normalizeAmp (field r ai))) in H.
      assert (Hr : forall k, rows_with_key ti di ai k [r] = if bool_decide (key = k) then [r] else []).
      { intros k'. unfold rows_with_key, row_key. cbn [List.filter]. rewrite P.
        fold key. destruct (decide (key = k')) as [<-|Hne].
        - now rewrite !bool_decide_eq_true_2.
        - rewrite !bool_decide_eq_false_2; [reflexivity|exact Hne|congruence]. }
      apply (IH _ _ (fun k => F k ++ rows_with_key ti di ai k [r])) with (k := k) in H;
        [exact H|].
      intros k'. rewrite Hr. destruct (decide (key = k')) as [<-|Hne].
      * rewrite bool_decide_eq_true_2 by reflexivity. rewrite lookup_insert_eq, Hg.
        rewrite default_opt_list. now rewrite opt_list_snoc.
      * rewrite bool_decide_eq_false_2 by exact Hne. rewrite lookup_insert_ne by exact Hne.
        now rewrite app_nil_r.
    + destruct skip; [|discriminate].
      assert (Hr : rows_with_key ti di ai k [r] = []).
      { unfold rows_with_key, row_key. cbn [List.filter]. rewrite P.
        rewrite bool_decide_eq_false_2; [reflexivity|discriminate]. }
      rewrite Hr, app_nil_r. eapply IH; eassumption.
Qed.

Lemma sort_records_groups w items chunk rc ti di ai g skip g' (F : GroupKey -> list row) :
  (forall k, g !! k = opt_list (F k)) ->
  sort_records w items chunk rc ti di ai g skip = (None, g') ->
  forall k, g' !! k = opt_list (F k ++ rows_with_key ti di ai k (chunk ++ read_records w items)).
Proof.
  revert chunk rc g F; induction items as [|it items IH]; intros chunk rc g F Hg H k.
  - cbn [sort_records read_records] in H |- *. rewrite app_nil_r.
    destruct (0 <? length chunk)%nat eqn:L.
    + unfold processChunk in H.
      destruct (processChunk_rows chunk ti di ai g skip 0) as [[n [e|]] g1] eqn:Ep.
      * destruct skip; [|discriminate].
        apply processChunk_rows_no_error in Ep. discriminate.
      * injection H as <-. eapply processChunk_rows_groups; eassumption.
    + apply Nat.ltb_ge in L. destruct chunk; [|cbn in L; lia].
      injection H as <-. cbn. rewrite app_nil_r. apply Hg.
  - cbn [sort_records read_records] in H |- *.
    destruct (read_record w it) as [r|].
    + replace (chunk ++ r :: read_records w items) with ((chunk ++ [r]) ++ read_records w items)
        by now rewrite <- app_assoc.
      destruct (ChunkSize <=? length (chunk ++ [r]))%nat.
      * unfold processChunk in H.
        destruct (processChunk_rows (chunk ++ [r]) ti di ai g skip 0) as [[n [e|]] g1] eqn:Ep.
        -- destruct skip; [|discriminate].
           apply processChunk_rows_no_error in Ep. discriminate.
        -- pose proof (processChunk_rows_groups _ _ _ _ _ _ _ _ _ F Hg Ep) as Hg1.
           rewrite rows_with_key_app, app_assoc.
           apply (IH [] (S rc) g1 (fun k => F k ++ rows_with_key ti di ai k (chunk ++ [r])));
             assumption.
      * apply (IH (chunk ++ [r]) (S rc) g F); assumption.
    + destruct skip; [|discriminate]. eapply IH; eassumption.
Qed.

Lemma write_groups_cons header groups k order fs :
  write_groups header groups (k :: order) fs =
  write_groups header groups order
    (match groups !! k with Some rows => write_group header fs k rows | None => fs end).
Proof. reflexivity. Qed.

Lemma write_group_same header fs k rows :
  write_group header fs k rows !! output_file k =
  Some (default [] (fs !! output_file k) ++
        (if bool_decide (is_Some (fs !! output_file k)) then [] else [header]) ++ rows).
Proof. unfold write_group. now rewrite lookup_insert_eq. Qed.

Lemma write_group_other header fs k rows n :
  n <> output_file k -> write_group header fs k rows !! n = fs !! n.
Proof. intros Hn. unfold write_group. rewrite lookup_insert_ne; [reflexivity|congruence]. Qed.

Lemma write_groups_append header groups order fs n l :
  fs !! n = Some l -> exists post, write_groups header groups order fs !! n = Some (l ++ post).
Proof.
  revert fs l; induction order as [|k order IH]; intros fs l H.
  - exists []. rewrite app_nil_r. exact H.
  - rewrite write_groups_cons. destruct (groups !! k) as [rows|]; [|now apply IH].
    destruct (decide (n = output_file k)) as [->|Hn].
    + destruct (IH _ _ (write_group_same header fs k rows)) as [post Hp].
      rewrite H in Hp. cbn [default] in Hp. eexists. rewrite Hp, <- app_assoc. reflexivity.
    + apply IH. rewrite write_group_other by exact Hn. exact H.
Qed.

Lemma write_group_grows header fs k rows n :
  exists a, default [] (write_group header fs k rows !! n) = default [] (fs !! n) ++ a.
Proof.
  destruct (decide (n = output_file k)) as [->|Hn].
  - rewrite write_group_same. cbn [default id]. eexists. reflexivity.
  - rewrite write_group_other by exact Hn. exists []. now rewrite app_nil_r.
Qed.

Lemma write_groups_contains header groups order fs k rows :
  In k order -> groups !! k = Some rows ->
  exists mid post,
    write_groups header groups order fs !! output_file k
    = Some (default [] (fs !! output_file k) ++ mid ++ rows ++ post).
Proof.
  revert fs; induction order as [|k0 order IH]; intros fs Hin Hk; [contradiction|].
  rewrite write_groups_cons. destruct Hin as [<-|Hin].
  - rewrite Hk. destruct (write_groups_append header groups order _ _ _
                           (write_group_same header fs k0 rows)) as [post Hp].
    rewrite Hp.
    exists (if bool_decide (is_Some (fs !! output_file k0)) then [] else [header]), post.
    rewrite <- !app_assoc. reflexivity.
  - destruct (IH (match groups !! k0 with
                  | Some rows0 => write_group header fs k0 rows0 | None => fs end) Hin Hk)
      as (mid & post & E).
    rewrite E.
    destruct (groups !! k0) as [rows0|].
    + destruct (write_group_grows header fs k0 rows0 (output_file k)) as [a Ea].
      rewrite Ea. exists (a ++ mid), post. now rewrite <- !app_assoc.
    + exists mid, post. reflexivity.
Qed.

Lemma write_groups_checked_ok can_open header groups order fs fs' :
  write_groups_checked can_open header groups order fs = (None, fs') ->
  fs' = write_groups header groups order fs.
Proof.
  revert fs; induction order as [|k order IH]; intros fs H.
  - cbn [write_groups_checked] in H. injection H as <-. reflexivity.
  - rewrite write_groups_cons. cbn [write_groups_checked] in H.
    destruct (groups !! k) as [rows|].
    + destruct (can_open (output_file k)); [now apply IH|discriminate].
    + now apply IH.
Qed.


Lemma write_groups_added header groups order fs n :
  exists added,
    default [] (write_groups header groups order fs !! n) = default [] (fs !! n) ++ added /\
    forall r, In r added -> r = header \/
      exists k rows, In k order /\ groups !! k = Some rows /\ In r rows /\ output_file k = n.
Proof.
  revert fs; induction order as [|k order IH]; intros fs.
  - exists []. rewrite app_nil_r. split; [reflexivity|intros r []].
  - rewrite write_groups_cons.
    destruct (groups !! k) as [rows|] eqn:Hk.
    + destruct (IH (write_group header fs k rows)) as (a2 & E2 & H2).
      destruct (decide (n = output_file k)) as [->|Hn].
      * rewrite write_group_same in E2. cbn [default id] in E2.
        exists (((if bool_decide (is_Some (fs !! output_file k)) then [] else [header]) ++ rows)
                ++ a2).
        rewrite E2, <- !app_assoc. split; [reflexivity|].
        intros r Hr. apply in_app_or in Hr as [Hr|Hr].
        -- left. destruct (bool_decide _); cbn in Hr; intuition.
        -- apply in_app_or in Hr as [Hr|Hr].
           ++ right. exists k, rows. repeat split; auto. now left.
           ++ destruct (H2 r Hr) as [Hh|(k' & rows' & Hin & Hk' & Hr' & Hn')]; [now left|].
              right. exists k', rows'. repeat split; auto. now right.
      * rewrite write_group_other in E2 by exact Hn. exists a2. split; [exact E2|].
        intros r Hr. destruct (H2 r Hr) as [Hh|(k' & rows' & Hin & Hk' & Hr' & Hn')]; [now left|].
        right. exists k', rows'. repeat split; auto. now right.
    + destruct (IH fs) as (a2 & E2 & H2). exists a2. split; [exact E2|].
      intros r Hr. destruct (H2 r Hr) as [Hh|(k' & rows' & Hin & Hk' & Hr' & Hn')]; [now left|].
      right. exists k', rows'. repeat split; auto. now right.
Qed.

(** The grouping [SortCSV] performs: each key's records, in input order,
    form one block of the file named after the key; everything the run
    adds to a file is the header or a record whose key names that file. *)
Lemma SortCSV_grouping enum can_open header items skipErrors fs fs' ti di ai :
  enum_ok enum ->
  col_index header "Time" = Some ti ->
  col_index header "DesignName" = Some di ->
  col_index header "LastAmp" = Some ai ->
  SortCSV enum can_open header items skipErrors fs = (None, fs') ->
  (forall k, rows_with_key ti di ai k (read_records (length header) items) <> [] ->
     exists mid post,
       fs' !! output_file k
       = Some (default [] (fs !! output_file k) ++ mid ++
               rows_with_key ti di ai k (read_records (length header) items) ++ post)) /\
  (forall name, exists added,
     default [] (fs' !! name) = default [] (fs !! name) ++ added /\
     forall r, In r added -> r = header \/
       (In r (read_records (length header) items) /\
        exists k, row_key ti di ai r = Some k /\ output_file k = name)).
Proof.
  intros Hok Ht Hd Ha H. unfold SortCSV in H. rewrite Ht, Hd, Ha in H.
  destruct (sort_records (length header) items [] 0 ti di ai ∅ skipErrors) as [[e|] g] eqn:Es;
    [discriminate|].
  apply write_groups_checked_ok in H. subst fs'.
  set (records := read_records (length header) items).
  assert (Hg : forall k, g !! k = opt_list (rows_with_key ti di ai k records)).
  { intros k. apply (sort_records_groups _ _ _ _ _ _ _ _ _ _ (fun _ => [])
                       (fun k => lookup_empty k) Es). }
  split.
  - intros k Hne. apply write_groups_contains.
    + apply (proj2 (Hok g)). rewrite Hg, opt_list_nonempty by exact Hne. eauto.
    + rewrite Hg. now apply opt_list_nonempty.
  - intros name. destruct (write_groups_added header g (enum g) fs name) as (added & E & Hadd).
    exists added. split; [exact E|]. intros r Hr.
    destruct (Hadd r Hr) as [Hh|(k & rows & _ & Hk & Hr' & Hn)]; [now left|]. right.
    rewrite Hg in Hk. apply opt_list_Some in Hk as ->.
    apply rows_with_key_In in Hr' as [Hin Hkey]. split; [exact Hin|]. now exists k.
Qed.

Lemma map_order_ok : enum_ok map_order.
Proof.
  intros g. split.
  - unfold map_order.
    replace (map fst (map_to_list g)) with ((map_to_list g).*1)
      by (induction (map_to_list g); cbn; congruence).
    apply NoDup_fst_map_to_list.
  - intros k. unfold map_order. rewrite in_map_iff. split.
    + intros ([k' v] & <- & Hin). exists v. apply elem_of_map_to_list.
      now apply list_elem_of_In.
    + intros [v Hv]. exists (k, v). split; [reflexivity|].
      apply list_elem_of_In. now apply elem_of_map_to_list.
Qed.

(* ------------------------------------------------------------------ *)
(** ** Claim C9 *)




(* ================================================================== *)
(** * Further properties of the LAS codec *)

(** [GetHeader] on a reader opened on a file [Write] produced: version
    1.2, point format 3, the point count (modulo 2^32, as [uint32]
    stores it), record length 34, scale 0.001 on each axis, the minima as
    offsets and the bounds [AddPoint] tracked. *)
Theorem GetHeader_written ps filename day year fs :
  ps <> [] -> Forall point_wf ps ->
  exists r,
    NewReader (snd (Write (writer_of ps) filename day year fs)) filename = inr r /\
    GetHeader r
    = mkHeader 1 2 3 (Z.of_nat (length ps) mod 2 ^ 32) 34 xScale yScale zScale
        (minX (writer_of ps)) (minY (writer_of ps)) (minZ (writer_of ps))
        (minX (writer_of ps)) (minY (writer_of ps)) (minZ (writer_of ps))
        (maxX (writer_of ps)) (maxY (writer_of ps)) (maxZ (writer_of ps)).
Proof.
  intros Hne Hwf. pose proof (writer_of_points ps) as Hp.
  destruct (Write_contents (writer_of ps) filename day year fs) as [_ Hf]; [now rewrite Hp|].
  unfold NewReader. rewrite Hf, readHeader_bytes by now apply writer_of_wf.
  rewrite Hp. eexists. split; reflexivity.
Qed.

Lemma GetHeader_written_witness :
  sample_points <> [] /\ Forall point_wf sample_points /\
  exists r,
    NewReader (snd (Write (writer_of sample_points) "a.las" 290 2026 (∅ : FS))) "a.las" = inr r /\
    GetHeader r
    = mkHeader 1 2 3 (Z.of_nat (length sample_points) mod 2 ^ 32) 34 xScale yScale zScale
        (minX (writer_of sample_points)) (minY (writer_of sample_points))
        (minZ (writer_of sample_points)) (minX (writer_of sample_points))
        (minY (writer_of sample_points)) (minZ (writer_of sample_points))
        (maxX (writer_of sample_points)) (maxY (writer_of sample_points))
        (maxZ (writer_of sample_points)).
Proof.
  assert (Hne : sample_points <> []) by discriminate.
  assert (Hwf : Forall point_wf sample_points)
    by (repeat constructor; unfold point_wf; vm_compute; repeat split; discriminate).
  split; [exact Hne|]. split; [exact Hwf|].
  exact (GetHeader_written sample_points "a.las" 290 2026 ∅ Hne Hwf).
Defined.

Lemma pos_compare_cont_Eq x y : PosDef.Pos.compare_cont Eq x y = Pos.compare x y.
Proof. reflexivity. Qed.

Lemma SFltb_irrefl a : SFltb a a = false.
Proof.
  destruct a as [s|s| |s m e]; try destruct s; unfold SFltb; cbn; auto;
    rewrite ?pos_compare_cont_Eq, ?Z.compare_refl, ?Pos.compare_refl; reflexivity.
Qed.

Lemma SFltb_trans a b c : SFltb a b = true -> SFltb b c = true -> SFltb a c = true.
Proof.
  destruct a as [sa|sa| |sa ma ea], b as [sb|sb| |sb mb eb], c as [sc|sc| |sc mc ec];
    try destruct sa; try destruct sb; try destruct sc; unfold SFltb; cbn;
    auto; try discriminate;
    repeat (rewrite ?pos_compare_cont_Eq in *; match goal with
    | |- context [Z.compare ?x ?y] => destruct (Z.compare_spec x y)
    | |- context [Pos.compare ?x ?y] => destruct (Pos.compare_spec x y)
    | H : context [Z.compare ?x ?y] |- _ => destruct (Z.compare_spec x y)
    | H : context [Pos.compare ?x ?y] |- _ => destruct (Pos.compare_spec x y)
    end); subst; cbn in *; auto; try discriminate; try lia.
Qed.

Lemma lt_irrefl a : F64.lt a a = false.
Proof. apply SFltb_irrefl. Qed.

Lemma lt_trans a b c : F64.lt a b = true -> F64.lt b c = true -> F64.lt a c = true.
Proof. apply SFltb_trans. Qed.

Lemma upd_min_keeps v u m : F64.lt v m = false -> F64.lt v (upd_min u m) = false.
Proof.
  unfold upd_min. destruct (F64.lt u m) eqn:E; [|tauto].
  intros H. destruct (F64.lt v u) eqn:E'; [|reflexivity].
  rewrite (lt_trans _ _ _ E' E) in H. discriminate.
Qed.

Lemma upd_min_self u m : F64.lt u (upd_min u m) = false.
Proof. unfold upd_min. destruct (F64.lt u m) eqn:E; [apply lt_irrefl|exact E]. Qed.

Lemma upd_max_keeps v u m : F64.lt m v = false -> F64.lt (upd_max u m) v = false.
Proof.
  unfold upd_max. destruct (F64.lt m u) eqn:E; [|tauto].
  intros H. destruct (F64.lt u v) eqn:E'; [|reflexivity].
  rewrite (lt_trans _ _ _ E E') in H. discriminate.
Qed.

Lemma upd_max_self u m : F64.lt (upd_max u m) u = false.
Proof. unfold upd_max. destruct (F64.lt m u) eqn:E; [apply lt_irrefl|exact E]. Qed.

(** One axis of the bounds: after folding [upd_min] (or [upd_max]) over
    the values, no value folded in, and no value already above the
    start, lies below the result. *)
Lemma fold_upd_min_bound (get : Point -> F64.t) ps : forall m v,
  (F64.lt v m = false \/ In v (map get ps)) ->
  F64.lt v (fold_left (fun acc p => upd_min (get p) acc) ps m) = false.
Proof.
  induction ps as [|p ps IH]; intros m v Hv; cbn [fold_left].
  - destruct Hv as [Hv|[]]. exact Hv.
  - apply IH. cbn [map In] in Hv. destruct Hv as [Hv|[<-|Hv]].
    + left. now apply upd_min_keeps.
    + left. apply upd_min_self.
    + now right.
Qed.

Lemma fold_upd_max_bound (get : Point -> F64.t) ps : forall m v,
  (F64.lt m v = false \/ In v (map get ps)) ->
  F64.lt (fold_left (fun acc p => upd_max (get p) acc) ps m) v = false.
Proof.
  induction ps as [|p ps IH]; intros m v Hv; cbn [fold_left].
  - destruct Hv as [Hv|[]]. exact Hv.
  - apply IH. cbn [map In] in Hv. destruct Hv as [Hv|[<-|Hv]].
    + left. now apply upd_max_keeps.
    + left. apply upd_max_self.
    + now right.
Qed.

Lemma fold_AddPoint_bounds ps : forall w,
  minX (fold_left AddPoint ps w) = fold_left (fun acc p => upd_min (X p) acc) ps (minX w) /\
  minY (fold_left AddPoint ps w) = fold_left (fun acc p => upd_min (Y p) acc) ps (minY w) /\
  minZ (fold_left AddPoint ps w) = fold_left (fun acc p => upd_min (Z_ p) acc) ps (minZ w) /\
  maxX (fold_left AddPoint ps w) = fold_left (fun acc p => upd_max (X p) acc) ps (maxX w) /\
  maxY (fold_left AddPoint ps w) = fold_left (fun acc p => upd_max (Y p) acc) ps (maxY w) /\
  maxZ (fold_left AddPoint ps w) = fold_left (fun acc p => upd_max (Z_ p) acc) ps (maxZ w).
Proof.
  induction ps as [|p ps IH]; intros w; [repeat split|].
  cbn [fold_left]. apply IH.
Qed.

(** The bounds [AddPoint] keeps: no point added lies strictly below the
    recorded minimum or strictly above the recorded maximum, on any
    axis (comparisons as Go's [<] and [>] on float64). *)
Theorem AddPoint_bounds ps p :
  In p ps ->
  F64.lt (X p) (minX (writer_of ps)) = false /\ F64.lt (maxX (writer_of ps)) (X p) = false /\
  F64.lt (Y p) (minY (writer_of ps)) = false /\ F64.lt (maxY (writer_of ps)) (Y p) = false /\
  F64.lt (Z_ p) (minZ (writer_of ps)) = false /\ F64.lt (maxZ (writer_of ps)) (Z_ p) = false.
Proof.
  intros Hin. unfold writer_of.
  destruct (fold_AddPoint_bounds ps NewWriter) as (E1 & E2 & E3 & E4 & E5 & E6).
  rewrite E1, E2, E3, E4, E5, E6.
  refine (conj _ (conj _ (conj _ (conj _ (conj _ _)))));
    [apply fold_upd_min_bound | apply fold_upd_max_bound | apply fold_upd_min_bound |
     apply fold_upd_max_bound | apply fold_upd_min_bound | apply fold_upd_max_bound];
    right; now apply in_map.
Qed.

Lemma AddPoint_bounds_witness :
  In (point_at 0) sample_points /\
  F64.lt (X (point_at 0)) (minX (writer_of sample_points)) = false /\
  F64.lt (maxX (writer_of sample_points)) (X (point_at 0)) = false /\
  F64.lt (Y (point_at 0)) (minY (writer_of sample_points)) = false /\
  F64.lt (maxY (writer_of sample_points)) (Y (point_at 0)) = false /\
  F64.lt (Z_ (point_at 0)) (minZ (writer_of sample_points)) = false /\
  F64.lt (maxZ (writer_of sample_points)) (Z_ (point_at 0)) = false.
Proof.
  assert (Hin : In (point_at 0) sample_points) by (left; reflexivity).
  split; [exact Hin|]. exact (AddPoint_bounds sample_points (point_at 0) Hin).
Defined.

(** How [NewReader] fails: [ErrOpen] for a file that does not exist,
    [ErrHeader] for a file shorter than the 227-byte header, and
    [ErrSignature] for a longer file that does not start with ["LASF"]. *)
Theorem NewReader_errors fs filename :
  (fs !! filename = None -> NewReader fs filename = inl ErrOpen) /\
  forall f, fs !! filename = Some f ->
    ((length f < 227)%nat -> NewReader fs filename = inl ErrHeader) /\
    ((227 <= length f)%nat -> slice 0 4 f <> bytes_of_string "LASF" ->
       NewReader fs filename = inl ErrSignature) /\
    ((227 <= length f)%nat -> slice 0 4 f = bytes_of_string "LASF" ->
       exists r, NewReader fs filename = inr r /\ file r = f /\ pos r = 227%nat).
Proof.
  split; [intros H; unfold NewReader; now rewrite H|].
  intros f Hf. unfold NewReader. rewrite Hf. split; [|split].
  - intros Hs. pose proof (readHeader_short f Hs) as E.
    destruct (readHeader f) as [[e|h] p]; cbn in E; congruence.
  - intros Hl Hs. unfold readHeader, read_full.
    change (0 + 227)%nat with 227%nat. rewrite length_slice.
    destruct (Nat.eqb_spec (Nat.min (227 - 0) (length f - 0)) 227); [|lia].
    rewrite slice_0_4_header.
    rewrite decide_False by exact Hs. reflexivity.
  - intros Hl Hs. unfold readHeader, read_full.
    change (0 + 227)%nat with 227%nat. rewrite length_slice.
    destruct (Nat.eqb_spec (Nat.min (227 - 0) (length f - 0)) 227); [|lia].
    rewrite slice_0_4_header.
    rewrite decide_True by exact Hs. eexists. repeat split.
Qed.

Lemma NewReader_errors_witness :
  sample_fs !! "b.las" = None /\ NewReader sample_fs "b.las" = inl ErrOpen.
Proof.
  assert (H : sample_fs !! "b.las" = None) by (vm_compute; reflexivity).
  split; [exact H|]. exact (proj1 (NewReader_errors sample_fs "b.las") H).
Defined.

(* ================================================================== *)
(** * Further properties of the sorter *)

Lemma processChunk_rows_good rows ti di ai g skip n :
  Forall (date_ok ti) rows ->
  snd (fst (processChunk_rows rows ti di ai g skip n)) = None.
Proof.
  revert g; induction rows as [|r rows IH]; intros g Hg; [reflexivity|].
  inversion Hg as [|? ? Hr Hrows]; subst. cbn [processChunk_rows].
  destruct (parseDate (field r ti)) eqn:E; [now apply IH|contradiction].
Qed.

Lemma processChunk_rows_bad c1 r c2 ti di ai g n :
  Forall (date_ok ti) c1 -> parseDate (field r ti) = None ->
  snd (fst (processChunk_rows (c1 ++ r :: c2) ti di ai g false n))
  = Some (ErrParseDate (field r ti)).
Proof.
  intros Hc1 Hr. revert g; induction Hc1 as [|q c1 Hq _ IH]; intros g; cbn [app processChunk_rows].
  - now rewrite Hr.
  - destruct (parseDate (field q ti)) eqn:E; [apply IH|contradiction].
Qed.

Lemma processChunk_rows_skipped rows ti di ai g n :
  fst (fst (processChunk_rows rows ti di ai g true n)) = (n + bad_dates ti rows)%nat /\
  snd (fst (processChunk_rows rows ti di ai g true n)) = None.
Proof.
  unfold bad_dates. revert g n; induction rows as [|r rows IH]; intros g n.
  - cbn. split; [lia|reflexivity].
  - cbn [processChunk_rows List.filter].
    destruct (parseDate (field r ti)) eqn:E.
    + rewrite bool_decide_false by congruence. apply IH.
    + rewrite bool_decide_true by reflexivity. cbn [length].
      destruct (IH g (S n)) as [H1 H2]. split; [rewrite H1; lia|exact H2].
Qed.

Lemma read_record_ok w r : length r = w -> read_record w (CSVRecord r) = Some r.
Proof. intros <-. cbn. now rewrite Nat.eqb_refl. Qed.



Lemma sort_records_bad_chunk w records c1 r c2 rc ti di ai g :
  Forall (fun q => length q = w) records ->
  Forall (date_ok ti) c1 -> parseDate (field r ti) = None ->
  fst (sort_records w (map CSVRecord records) (c1 ++ r :: c2) rc ti di ai g false)
  = Some (ErrParseDate (field r ti)).
Proof.
  intros Hw Hc1 Hr. revert c2 rc g; induction Hw as [|x records Hx _ IH]; intros c2 rc g;
    cbn [map sort_records].
  - rewrite length_app. cbn [length]. replace (0 <? _)%nat with true by (symmetry; apply Nat.ltb_lt; lia).
    pose proof (processChunk_rows_bad c1 r c2 ti di ai g 0 Hc1 Hr) as E.
    unfold processChunk. destruct (processChunk_rows (c1 ++ r :: c2) ti di ai g false 0) as [[? e] g'].
    cbn in E. now subst e.
  - rewrite read_record_ok by exact Hx.
    replace ((c1 ++ r :: c2) ++ [x]) with (c1 ++ r :: (c2 ++ [x])) by now rewrite <- app_assoc.
    destruct (ChunkSize <=? length (c1 ++ r :: c2 ++ [x]))%nat; [|apply IH].
    pose proof (processChunk_rows_bad c1 r (c2 ++ [x]) ti di ai g 0 Hc1 Hr) as E.
    unfold processChunk. destruct (processChunk_rows (c1 ++ r :: c2 ++ [x]) ti di ai g false 0) as [[? e] g'].
    cbn in E. now subst e.
Qed.

Lemma sort_records_bad w pre r post chunk rc ti di ai g :
  Forall (fun q => length q = w /\ date_ok ti q) pre -> length r = w ->
  Forall (fun q => length q = w) post ->
  Forall (date_ok ti) chunk -> parseDate (field r ti) = None ->
  fst (sort_records w (map CSVRecord (pre ++ r :: post)) chunk rc ti di ai g false)
  = Some (ErrParseDate (field r ti)).
Proof.
  intros Hpre Hrw Hpost. revert chunk rc g;
    induction Hpre as [|x pre [Hxw Hx] _ IH]; intros chunk rc g Hc Hr.
  - cbn [app map sort_records]. rewrite read_record_ok by exact Hrw.
    destruct (ChunkSize <=? length (chunk ++ [r]))%nat.
    + pose proof (processChunk_rows_bad chunk r [] ti di ai g 0 Hc Hr) as E.
      unfold processChunk. destruct (processChunk_rows (chunk ++ [r]) ti di ai g false 0) as [[? e] g'].
      cbn in E. now subst e.
    + now apply sort_records_bad_chunk.
  - cbn [app map sort_records]. rewrite read_record_ok by exact Hxw.
    assert (Hc' : Forall (date_ok ti) (chunk ++ [x])) by (apply Forall_app; auto).
    destruct (ChunkSize <=? length (chunk ++ [x]))%nat; [|now apply IH].
    pose proof (processChunk_rows_good (chunk ++ [x]) ti di ai g false 0 Hc') as E.
    unfold processChunk. destruct (processChunk_rows (chunk ++ [x]) ti di ai g false 0) as [[? e] g'].
    cbn in E. subst e. now apply IH.
Qed.

(** A read error with no chunk flushed since [chunk] began. *)
Lemma sort_records_read_error_short w pre it post chunk rc ti di ai g :
  Forall (fun q => length q = w) pre -> read_record w it = None ->
  (length chunk + length pre < ChunkSize)%nat ->
  sort_records w (map CSVRecord pre ++ it :: post) chunk rc ti di ai g false
  = (Some (ErrReadRow (rc + length pre + 2)), g).
Proof.
  intros Hpre Hit. revert chunk rc; induction Hpre as [|x pre Hx _ IH]; intros chunk rc Hlen.
  - cbn [map app sort_records]. rewrite Hit. cbn [length]. now rewrite Nat.add_0_r.
  - cbn [map app sort_records]. rewrite read_record_ok by exact Hx.
    replace (ChunkSize <=? length (chunk ++ [x]))%nat with false
      by (symmetry; apply Nat.leb_gt; rewrite length_app; cbn [length] in *; lia).
    rewrite IH by (rewrite length_app; cbn [length] in *; lia).
    cbn [length]. do 3 f_equal. lia.
Qed.

(** A read error after records whose dates all parse. *)
Lemma sort_records_read_error_good w pre it post chunk rc ti di ai g :
  Forall (fun q => length q = w /\ date_ok ti q) pre -> read_record w it = None ->
  Forall (date_ok ti) chunk ->
  fst (sort_records w (map CSVRecord pre ++ it :: post) chunk rc ti di ai g false)
  = Some (ErrReadRow (rc + length pre + 2)).
Proof.
  intros Hpre Hit. revert chunk rc g; induction Hpre as [|x pre [Hxw Hx] _ IH]; intros chunk rc g Hc.
  - cbn [map app sort_records]. rewrite Hit. cbn [length]. now rewrite Nat.add_0_r.
  - cbn [map app sort_records]. rewrite read_record_ok by exact Hxw.
    assert (Hc' : Forall (date_ok ti) (chunk ++ [x])) by (apply Forall_app; auto).
    replace (rc + length (x :: pre) + 2)%nat with (S rc + length pre + 2)%nat
      by (cbn [length]; lia).
    destruct (ChunkSize <=? length (chunk ++ [x]))%nat; [|now apply IH].
    pose proof (processChunk_rows_good (chunk ++ [x]) ti di ai g false 0 Hc') as E.
    unfold processChunk. destruct (processChunk_rows (chunk ++ [x]) ti di ai g false 0) as [[? e] g'].
    cbn in E. subst e. now apply IH.
Qed.

(** [SortCSV] checks the required columns in the order Time,
    DesignName, LastAmp and reports the first one the header lacks,
    before reading any record and without writing any file. *)
Theorem SortCSV_missing_column enum can_open header items skipErrors fs col :
  first_missing header ["Time"; "DesignName"; "LastAmp"] = Some col ->
  SortCSV enum can_open header items skipErrors fs = (Some (ErrMissingColumn col), fs).
Proof.
  unfold SortCSV. cbn [first_missing].
  destruct (col_index header "Time"), (col_index header "DesignName"), (col_index header "LastAmp");
    congruence.
Qed.

(** With [skipErrors] off, when [reader.Read()] reports no error (every
    record has the header's field count), the run stops at the first
    record (in input order, across chunks) whose Time field does not
    parse: the error quotes that field and no output file is written. *)
Theorem SortCSV_first_bad_date enum can_open header fs ti di ai pre r post :
  col_index header "Time" = Some ti ->
  col_index header "DesignName" = Some di ->
  col_index header "LastAmp" = Some ai ->
  Forall (fun q => length q = length header /\ date_ok ti q) pre ->
  length r = length header -> parseDate (field r ti) = None ->
  Forall (fun q => length q = length header) post ->
  SortCSV enum can_open header (map CSVRecord (pre ++ r :: post)) false fs
  = (Some (ErrParseDate (field r ti)), fs).
Proof.
  intros Ht Hd Ha Hpre Hrw Hr Hpost. unfold SortCSV. rewrite Ht, Hd, Ha.
  pose proof (sort_records_bad (length header) pre r post [] 0 ti di ai ∅
                Hpre Hrw Hpost (List.Forall_nil _) Hr) as E.
  destruct (sort_records (length header) (map CSVRecord (pre ++ r :: post)) [] 0 ti di ai ∅ false)
    as [e g].
  cbn in E. now subst e.
Qed.

(** With [skipErrors] off, a record [reader.Read()] rejects (a field
    count other than the header's, or a CSV syntax error) stops the run
    with [error reading row N], N being the number of records read
    before it plus 2, provided no date error was met first: the records
    before it all parse, or fewer than [ChunkSize] of them came before
    it, so no chunk was processed. No output file is written. *)
Theorem SortCSV_read_error enum can_open header fs ti di ai pre it post :
  col_index header "Time" = Some ti ->
  col_index header "DesignName" = Some di ->
  col_index header "LastAmp" = Some ai ->
  Forall (fun q => length q = length header) pre ->
  Forall (date_ok ti) pre \/ (length pre < ChunkSize)%nat ->
  read_record (length header) it = None ->
  SortCSV enum can_open header (map CSVRecord pre ++ it :: post) false fs
  = (Some (ErrReadRow (length pre + 2)), fs).
Proof.
  intros Ht Hd Ha Hw Hpre Hit. unfold SortCSV. rewrite Ht, Hd, Ha.
  assert (E : fst (sort_records (length header) (map CSVRecord pre ++ it :: post) [] 0 ti di ai ∅
                     false) = Some (ErrReadRow (length pre + 2))).
  { destruct Hpre as [Hpre|Hpre].
    - apply sort_records_read_error_good; [|exact Hit|constructor].
      apply List.Forall_forall. intros q Hq. split.
      + exact (proj1 (List.Forall_forall _ _) Hw q Hq).
      + exact (proj1 (List.Forall_forall _ _) Hpre q Hq).
    - rewrite sort_records_read_error_short; [reflexivity|exact Hw|exact Hit|cbn [length]; lia]. }
  destruct (sort_records (length header) (map CSVRecord pre ++ it :: post) [] 0 ti di ai ∅ false)
    as [e g].
  cbn in E. now subst e.
Qed.


(** With [skipErrors] on, [processChunk] never fails, and the count it
    returns is the number of rows of the chunk whose Time field does
    not parse. *)
Theorem processChunk_skipped chunk ti di ai groups :
  fst (processChunk chunk ti di ai groups true) = (bad_dates ti chunk, None).
Proof.
  unfold processChunk. destruct (processChunk_rows_skipped chunk ti di ai groups 0) as [H1 H2].
  destruct (processChunk_rows chunk ti di ai groups true 0) as [[n e] g]. cbn in *.
  now subst.
Qed.

Lemma col_index_from_None k h c : col_index_from k h c = None <-> ~ In c h.
Proof.
  revert k; induction h as [|x h IH]; intros k; cbn [col_index_from In]; [tauto|].
  destruct (col_index_from (S k) h c) eqn:E.
  - split; [discriminate|].
    destruct (in_dec String.string_dec c h) as [Hin|Hin].
    + intros Hn. exfalso. apply Hn. now right.
    + apply (IH (S k)) in Hin. congruence.
  - apply IH in E. destruct (String.eqb_spec x c); split; try congruence; try tauto.
Qed.

Lemma col_index_from_Some k h c i :
  col_index_from k h c = Some i ->
  (k <= i)%nat /\ nth_error h (i - k) = Some c /\
  forall j, (i - k < j)%nat -> nth_error h j <> Some c.
Proof.
  revert k; induction h as [|x h IH]; intros k; cbn [col_index_from]; [discriminate|].
  destruct (col_index_from (S k) h c) eqn:E.
  - intros [= <-]. destruct (IH (S k) E) as (Hle & Hn & Hj).
    replace (n - k)%nat with (S (n - S k)) by lia. split; [lia|]. split; [exact Hn|].
    intros [|j] Hlt; [lia|]. cbn. apply Hj. lia.
  - destruct (String.eqb_spec x c) as [<-|]; [|discriminate]. intros [= <-].
    rewrite Nat.sub_diag. split; [lia|]. split; [reflexivity|].
    intros [|j] Hlt; [lia|]. cbn. intros Hj. apply nth_error_In in Hj.
    apply (col_index_from_None (S k) h x) in E. contradiction.
Qed.

Lemma col_index_from_last k h c i :
  nth_error h i = Some c -> (forall j, (i < j)%nat -> nth_error h j <> Some c) ->
  col_index_from k h c = Some (k + i)%nat.
Proof.
  revert k i; induction h as [|x h IH]; intros k i Hi Hj; [now destruct i|].
  cbn [col_index_from]. destruct i as [|i].
  - cbn in Hi. injection Hi as ->.
    assert (Hn : ~ In c h).
    { intros Hin. apply In_nth_error in Hin as [j Hj']. apply (Hj (S j)); [lia|exact Hj']. }
    apply (col_index_from_None (S k) h c) in Hn. rewrite Hn, String.eqb_refl. f_equal. lia.
  - rewrite (IH (S k) i Hi); [f_equal; lia|].
    intros j Hlt. apply (Hj (S j)). lia.
Qed.

(** [colMap] is filled by [for i, col := range header { colMap[col] = i }],
    so a column name that occurs more than once maps to its last
    occurrence, and a name that does not occur is absent. *)
Theorem col_index_spec header col :
  (col_index header col = None <-> ~ In col header) /\
  forall i, col_index header col = Some i <->
    nth_error header i = Some col /\ forall j, (i < j)%nat -> nth_error header j <> Some col.
Proof.
  split; [apply col_index_from_None|]. intros i. split.
  - intros H. apply col_index_from_Some in H as (_ & Hn & Hj). rewrite Nat.sub_0_r in Hn, Hj.
    now split.
  - intros [Hn Hj]. exact (col_index_from_last 0 header col i Hn Hj).
Qed.

Lemma sanitizeFilename_clean s : clean_name (sanitizeFilename s).
Proof.
  unfold clean_name. induction s as [|c s IH]; cbn [sanitizeFilename]; [constructor|].
  destruct (invalid_filename_char c) eqn:E; [exact IH|]. cbn. now constructor.
Qed.

Lemma sanitizeFilename_id s : clean_name s -> sanitizeFilename s = s.
Proof.
  unfold clean_name. induction s as [|c s IH]; intros H; cbn [sanitizeFilename]; [reflexivity|].
  cbn [list_ascii_of_string] in H. inversion H as [|? ? Hc Hs]; subst. rewrite Hc. f_equal. now apply IH.
Qed.

Lemma sanitizeFilename_filter s :
  sanitizeFilename s
  = string_of_list_ascii
      (List.filter (fun c => negb (invalid_filename_char c)) (list_ascii_of_string s)).
Proof.
  induction s as [|c s IH]; [reflexivity|]. cbn [sanitizeFilename list_ascii_of_string List.filter].
  destruct (invalid_filename_char c); cbn [negb]; [exact IH|]. cbn. now rewrite IH.
Qed.

(** [sanitizeFilename] deletes exactly the characters of its class
    ([invalid_filename_char]) and keeps every other character, in
    order; so it leaves none of the class in its result, returns every
    other name unchanged, and is idempotent. *)
Theorem sanitizeFilename_spec s :
  sanitizeFilename s
  = string_of_list_ascii
      (List.filter (fun c => negb (invalid_filename_char c)) (list_ascii_of_string s)) /\
  clean_name (sanitizeFilename s) /\
  (sanitizeFilename s = s <-> clean_name s) /\
  sanitizeFilename (sanitizeFilename s) = sanitizeFilename s.
Proof.
  split; [apply sanitizeFilename_filter|].
  split; [apply sanitizeFilename_clean|]. split.
  - split; [intros <-; apply sanitizeFilename_clean|apply sanitizeFilename_id].
  - apply sanitizeFilename_id, sanitizeFilename_clean.
Qed.

Lemma sanitizeFilename_app s t :
  sanitizeFilename (s +++ t) = sanitizeFilename s +++ sanitizeFilename t.
Proof.
  induction s as [|c s IH]; [reflexivity|]. rewrite append_cons. cbn [sanitizeFilename].
  destruct (invalid_filename_char c); [exact IH|]. now rewrite IH, append_cons.
Qed.

(** The file a group goes to: a name with no path separator nor any
    other character of [invalid_filename_char], ending in [.csv], so
    [filepath.Join] places it directly in the output directory. *)
Theorem output_file_safe k :
  clean_name (output_file k) /\ exists base, output_file k = base +++ ".csv".
Proof.
  split; [apply sanitizeFilename_clean|]. unfold output_file, generateFilename.
  destruct (String.eqb (Amp k) "no_amp").
  - exists (sanitizeFilename (Date k +++ "design" +++ DesignName k +++ "amp")).
    replace (Date k +++ "design" +++ DesignName k +++ "amp.csv")
      with ((Date k +++ "design" +++ DesignName k +++ "amp") +++ ".csv")
      by (rewrite !append_assoc_str; reflexivity).
    rewrite sanitizeFilename_app. reflexivity.
  - exists (sanitizeFilename (Date k +++ "design" +++ DesignName k +++ "amp" +++ Amp k)).
    replace (Date k +++ "design" +++ DesignName k +++ "amp" +++ Amp k +++ ".csv")
      with ((Date k +++ "design" +++ DesignName k +++ "amp" +++ Amp k) +++ ".csv")
      by (rewrite !append_assoc_str; reflexivity).
    rewrite sanitizeFilename_app. reflexivity.
Qed.

(** Whatever [skipErrors] says, a successful run writes no record whose
    Time field does not parse (other than a copy of the header): every
    file only grows, and by lines other than that record. *)
Theorem SortCSV_drops_bad_dates enum can_open header items skipErrors fs fs' ti di ai r :
  enum_ok enum ->
  col_index header "Time" = Some ti ->
  col_index header "DesignName" = Some di ->
  col_index header "LastAmp" = Some ai ->
  SortCSV enum can_open header items skipErrors fs = (None, fs') ->
  parseDate (field r ti) = None -> r <> header ->
  forall name, exists added,
    default [] (fs' !! name) = default [] (fs !! name) ++ added /\ ~ In r added.
Proof.
  intros Hok Ht Hd Ha H Hr Hh name.
  destruct (SortCSV_grouping enum can_open header items skipErrors fs fs' ti di ai
              Hok Ht Hd Ha H) as [_ H2].
  destruct (H2 name) as (added & E & Hadd). exists added. split; [exact E|].
  intros Hin. destruct (Hadd r Hin) as [->|(_ & k & Hk & _)]; [contradiction|].
  unfold row_key in Hk. rewrite Hr in Hk. discriminate.
Qed.

Lemma SortCSV_missing_column_witness :
  first_missing ["Time"; "DesignName"] ["Time"; "DesignName"; "LastAmp"] = Some "LastAmp"%string /\
  SortCSV map_order all_open ["Time"; "DesignName"] sample_items false ∅
  = (Some (ErrMissingColumn "LastAmp"), ∅).
Proof.
  assert (H : first_missing ["Time"; "DesignName"] ["Time"; "DesignName"; "LastAmp"]
              = Some "LastAmp"%string) by (vm_compute; reflexivity).
  split; [exact H|].
  exact (SortCSV_missing_column map_order all_open _ sample_items false ∅ _ H).
Defined.

Lemma SortCSV_first_bad_date_witness :
  col_index sample_header "Time" = Some 0%nat /\
  col_index sample_header "DesignName" = Some 1%nat /\
  col_index sample_header "LastAmp" = Some 2%nat /\
  Forall (fun q => length q = length sample_header /\ date_ok 0 q) [sample_row_A] /\
  length sample_bad_row = length sample_header /\
  parseDate (field sample_bad_row 0) = None /\
  Forall (fun q => length q = length sample_header) [sample_row_Aq] /\
  SortCSV map_order all_open sample_header sample_mixed_items false ∅
  = (Some (ErrParseDate (field sample_bad_row 0)), ∅).
Proof.
  assert (Ht : col_index sample_header "Time" = Some 0%nat) by (vm_compute; reflexivity).
  assert (Hd : col_index sample_header "DesignName" = Some 1%nat) by (vm_compute; reflexivity).
  assert (Ha : col_index sample_header "LastAmp" = Some 2%nat) by (vm_compute; reflexivity).
  assert (Hp : Forall (fun q => length q = length sample_header /\ date_ok 0 q) [sample_row_A])
    by (constructor; [split; [reflexivity|unfold date_ok; vm_compute; discriminate]|constructor]).
  assert (Hw : length sample_bad_row = length sample_header) by reflexivity.
  assert (Hb : parseDate (field sample_bad_row 0) = None) by (vm_compute; reflexivity).
  assert (Hq : Forall (fun q => length q = length sample_header) [sample_row_Aq])
    by (constructor; [reflexivity|constructor]).
  do 7 (split; [assumption|]).
  exact (SortCSV_first_bad_date map_order all_open sample_header ∅ 0 1 2
           [sample_row_A] sample_bad_row [sample_row_Aq] Ht Hd Ha Hp Hw Hb Hq).
Defined.

Lemma SortCSV_read_error_witness :
  col_index sample_header "Time" = Some 0%nat /\
  col_index sample_header "DesignName" = Some 1%nat /\
  col_index sample_header "LastAmp" = Some 2%nat /\
  Forall (fun q => length q = length sample_header) [sample_bad_row] /\
  (length [sample_bad_row] < ChunkSize)%nat /\
  read_record (length sample_header) (CSVRecord sample_short_row) = None /\
  SortCSV map_order all_open sample_header sample_read_error_items false ∅
  = (Some (ErrReadRow 3), ∅).
Proof.
  assert (Ht : col_index sample_header "Time" = Some 0%nat) by (vm_compute; reflexivity).
  assert (Hd : col_index sample_header "DesignName" = Some 1%nat) by (vm_compute; reflexivity).
  assert (Ha : col_index sample_header "LastAmp" = Some 2%nat) by (vm_compute; reflexivity).
  assert (Hw : Forall (fun q => length q = length sample_header) [sample_bad_row])
    by (constructor; [reflexivity|constructor]).
  assert (Hl : (length [sample_bad_row] < ChunkSize)%nat) by (vm_compute; lia).
  assert (Hit : read_record (length sample_header) (CSVRecord sample_short_row) = None)
    by (vm_compute; reflexivity).
  do 6 (split; [assumption|]).
  exact (SortCSV_read_error map_order all_open sample_header ∅ 0 1 2
           [sample_bad_row] (CSVRecord sample_short_row) [CSVRecord sample_row_A]
           Ht Hd Ha Hw (or_intror Hl) Hit).
Defined.


Lemma SortCSV_drops_bad_dates_witness :
  SortCSV map_order all_open sample_header sample_mixed_items true ∅
  = (None, snd (SortCSV map_order all_open sample_header sample_mixed_items true ∅)) /\
  exists added,
    default [] (snd (SortCSV map_order all_open sample_header sample_mixed_items true ∅)
                  !! output_file sample_key_A)
    = default [] ((∅ : CSVFS) !! output_file sample_key_A) ++ added /\
    ~ In sample_bad_row added.
Proof.
  assert (Ht : col_index sample_header "Time" = Some 0%nat) by (vm_compute; reflexivity).
  assert (Hd : col_index sample_header "DesignName" = Some 1%nat) by (vm_compute; reflexivity).
  assert (Ha : col_index sample_header "LastAmp" = Some 2%nat) by (vm_compute; reflexivity).
  assert (Hrun : SortCSV map_order all_open sample_header sample_mixed_items true ∅
                 = (None, snd (SortCSV map_order all_open sample_header sample_mixed_items true ∅)))
    by (vm_compute; reflexivity).
  assert (Hb : parseDate (field sample_bad_row 0) = None) by (vm_compute; reflexivity).
  assert (Hh : sample_bad_row <> sample_header) by discriminate.
  split; [exact Hrun|].
  exact (SortCSV_drops_bad_dates map_order all_open sample_header sample_mixed_items true ∅ _ 0 1 2
           sample_bad_row map_order_ok Ht Hd Ha Hrun Hb Hh (output_file sample_key_A)).
Defined.

Lemma col_index_spec_witness :
  nth_error ["a"; "b"; "a"] 2 = Some "a"%string /\
  col_index ["a"; "b"; "a"] "a" = Some 2%nat.
Proof.
  assert (Hn : nth_error ["a"; "b"; "a"] 2 = Some "a"%string) by reflexivity.
  assert (Hj : forall j, (2 < j)%nat -> nth_error ["a"; "b"; "a"] j <> Some "a"%string).
  { intros j Hj. rewrite (proj2 (nth_error_None ["a"; "b"; "a"] j)) by (cbn; lia).
    discriminate. }
  split; [exact Hn|].
  exact (proj2 (proj2 (col_index_spec ["a"; "b"; "a"] "a") 2%nat) (conj Hn Hj)).
Defined.

(* ================================================================== *)
(** * Properties of the converter *)

Section ConverterProofs.
Variable ParseFloat : string -> option F64.t.
Variable parseTimeToGPS : string -> option F64.t.
Variable Base : string -> string.
Variable Join : string -> string -> string.
Variable MkdirAll : string -> bool.

Lemma determineColor_range pc tp :
  let '(rr, gg, bb) := determineColor pc tp in
  0 <= rr < 2 ^ 16 /\ 0 <= gg < 2 ^ 16 /\ 0 <= bb < 2 ^ 16.
Proof.
  unfold determineColor.
  destruct (pc <? tp); [|destruct (pc =? tp)]; repeat split; lia.
Qed.

Lemma row_point_wf header r p :
  (forall s v, ParseFloat s = Some v -> 0 <= v < 2 ^ 64) ->
  (forall s v, parseTimeToGPS s = Some v -> 0 <= v < 2 ^ 64) ->
  row_point ParseFloat parseTimeToGPS header r = inr p -> point_wf p.
Proof.
  intros HF HT. unfold row_point.
  destruct (parseTimeToGPS _) as [t|] eqn:Et; [|discriminate].
  destruct (ParseFloat (field r (colMap header "CellE_m"))) as [x|] eqn:Ex; [|discriminate].
  destruct (ParseFloat (field r (colMap header "CellN_m"))) as [y|] eqn:Ey; [|discriminate].
  destruct (ParseFloat (field r (colMap header "Elevation_m"))) as [z|] eqn:Ez; [|discriminate].
  destruct (Atoi _) as [pc|]; [|discriminate].
  destruct (Atoi _) as [tp|]; [|discriminate].
  pose proof (determineColor_range pc tp) as Hc.
  destruct (determineColor pc tp) as [[rr gg] bb]. intros [= <-].
  apply HF in Ex, Ey, Ez. apply HT in Et.
  unfold point_wf; cbn. repeat split; lia.
Qed.

Lemma convert_rows_ok header rows ps i w :
  Forall2 (fun r p => row_point ParseFloat parseTimeToGPS header r = inr p) rows ps ->
  convert_rows ParseFloat parseTimeToGPS header rows i w = inr (fold_left AddPoint ps w).
Proof.
  intros H. revert i w. induction H as [|r p rows ps Hr _ IH]; intros i w; [reflexivity|].
  cbn [convert_rows fold_left]. rewrite Hr. apply IH.
Qed.

Lemma convert_rows_bad header pre r post col : forall i w,
  Forall (fun q => exists p, row_point ParseFloat parseTimeToGPS header q = inr p) pre ->
  row_point ParseFloat parseTimeToGPS header r = inl col ->
  convert_rows ParseFloat parseTimeToGPS header (pre ++ r :: post) i w
  = inl (ErrInvalidValue (i + length pre + 1) col).
Proof.
  induction pre as [|q pre IH]; intros i w Hpre Hr; cbn [app convert_rows].
  - rewrite Hr. f_equal. f_equal. cbn. lia.
  - inversion Hpre as [|? ? [p Hp] Hpre']; subst. rewrite Hp.
    rewrite IH by assumption. f_equal. f_equal. cbn. lia.
Qed.

(** A successful conversion: when the CSV has at least one data row and
    fewer than 2^32 of them, has the required columns, every data row
    converts, the output directory can be created and the base name of
    the CSV path has at least 4 bytes (so the slice [baseName[:len-4]]
    does not panic), [ConvertCSVToLAS] succeeds and the LAS file it
    writes decodes to the rows' points, in row order: colour from
    [determineColor], intensity 0, class 1 and GPS time bit-exact,
    coordinates requantised to 0.001 from the minima. Writing the LAS
    file is assumed to succeed, as in the model of [Write]. *)
Theorem ConvertCSVToLAS_decode csvs csvPath outputDir day year fs header rows ps name :
  (forall s v, ParseFloat s = Some v -> 0 <= v < 2 ^ 64) ->
  (forall s v, parseTimeToGPS s = Some v -> 0 <= v < 2 ^ 64) ->
  csvs csvPath = Some (header :: rows) ->
  first_missing header required_columns = None ->
  Forall2 (fun r p => row_point ParseFloat parseTimeToGPS header r = inr p) rows ps ->
  rows <> [] -> Z.of_nat (length rows) < 2 ^ 32 ->
  lasName (Base csvPath) = Some name ->
  MkdirAll outputDir = true ->
  fst (ConvertCSVToLAS ParseFloat parseTimeToGPS Base Join MkdirAll csvs csvPath outputDir day year fs)
  = None /\
  decode (snd (ConvertCSVToLAS ParseFloat parseTimeToGPS Base Join MkdirAll csvs csvPath outputDir
                 day year fs)) (Join outputDir name)
  = inr (map (requantized (writer_of ps)) ps).
Proof.
  intros HF HT Hcsv Hcols Hps Hne Hlen Hname Hdir.
  assert (Hlen' : length ps = length rows) by (symmetry; eapply Forall2_length; exact Hps).
  assert (Hpsne : ps <> []) by (intros ->; destruct rows; [contradiction|discriminate]).
  assert (Hwf : Forall point_wf ps).
  { clear - Hps HF HT. induction Hps as [|r p rows ps Hr _ IH]; constructor; [|exact IH].
    exact (row_point_wf header r p HF HT Hr). }
  pose proof (writer_of_points ps) as Hpts.
  unfold ConvertCSVToLAS. rewrite Hcsv.
  replace (length (header :: rows) <? 2)%nat with false
    by (destruct rows; [contradiction|reflexivity]).
  cbn [hd tl]. rewrite Hcols, Hdir. cbn [negb].
  rewrite (convert_rows_ok header rows ps 1 NewWriter Hps).
  fold (writer_of ps). rewrite Hname.
  destruct (Write_contents (writer_of ps) (Join outputDir name) day year fs) as [E _];
    [now rewrite Hpts|].
  pose proof (decode_written (writer_of ps) (Join outputDir name) day year fs) as D.
  rewrite Hpts in D. rewrite E in D |- *. split; [reflexivity|]. cbn [snd] in D |- *.
  apply D; auto using writer_of_wf. lia.
Qed.

(** When the CSV has the required columns and the output directory can
    be created, the first data row that does not convert stops the
    conversion, provided every data row before it converts: the error
    gives that row's record number counting the header as record 1 (its
    index in [records] plus 1, not its line in the file) and the first
    of its columns, in the order Time, CellE_m, CellN_m, Elevation_m,
    PassCount, TargPassCount, whose value does not parse; no LAS file is
    written. *)
Theorem ConvertCSVToLAS_bad_row csvs csvPath outputDir day year fs header pre r post col :
  csvs csvPath = Some (header :: pre ++ r :: post) ->
  first_missing header required_columns = None ->
  Forall (fun q => exists p, row_point ParseFloat parseTimeToGPS header q = inr p) pre ->
  row_point ParseFloat parseTimeToGPS header r = inl col ->
  MkdirAll outputDir = true ->
  ConvertCSVToLAS ParseFloat parseTimeToGPS Base Join MkdirAll csvs csvPath outputDir day year fs
  = (Some (ErrInvalidValue (length pre + 2) col), fs).
Proof.
  intros Hcsv Hcols Hpre Hr Hdir. unfold ConvertCSVToLAS. rewrite Hcsv.
  replace (length (header :: pre ++ r :: post) <? 2)%nat with false
    by (symmetry; apply Nat.ltb_ge; cbn; rewrite length_app; cbn; lia).
  cbn [hd tl]. rewrite Hcols, Hdir. cbn [negb].
  rewrite (convert_rows_bad header pre r post col 1 NewWriter Hpre Hr).
  do 3 f_equal. lia.
Qed.

Lemma convert_files_spec csvs files outputDir day year : forall c fs n e fs',
  convert_files ParseFloat parseTimeToGPS Base Join MkdirAll csvs files outputDir day year c fs
  = (n, e, fs') ->
  (e = None -> n = (c + length files)%nat) /\
  (forall e', e = Some e' ->
     exists k f e'' fsk,
       n = (c + k)%nat /\ nth_error files k = Some f /\
       convert_files ParseFloat parseTimeToGPS Base Join MkdirAll csvs (firstn k files) outputDir day year
         c fs = (n, None, fsk) /\
       ConvertCSVToLAS ParseFloat parseTimeToGPS Base Join MkdirAll csvs f outputDir day year fsk
       = (Some e'', fs') /\
       e' = ErrConvertFile (Base f) e'').
Proof.
  induction files as [|f files IH]; intros c fs n e fs' H; cbn [convert_files] in H.
  - injection H as <- <- <-. split; [intros _; cbn; lia|discriminate].
  - destruct (ConvertCSVToLAS ParseFloat parseTimeToGPS Base Join MkdirAll csvs f outputDir day year fs)
      as [[err|] fs1] eqn:Ef.
    + injection H as <- <- <-. split; [discriminate|]. intros e' [= <-].
      exists O, f, err, fs. repeat split; [lia|assumption].
    + destruct (IH (S c) fs1 n e fs' H) as [H1 H2]. split.
      * intros He. rewrite (H1 He). cbn. lia.
      * intros e' He. destruct (H2 e' He) as (k & f' & e'' & fsk & Hn & Hk & Hpre & Hf' & Hv).
        exists (S k), f', e'', fsk. split; [lia|]. split; [exact Hk|].
        split; [|split; assumption].
        cbn [firstn convert_files]. rewrite Ef. exact Hpre.
Qed.

(** [ConvertDirectory] fails on an empty file list; otherwise it
    converts the files in order and stops at the first failure. On
    success the count is the number of files; on failure the count is
    the number of files converted before it, all of them successfully,
    and the error names the file that failed ([filepath.Base]). *)
Theorem ConvertDirectory_result csvs files outputDir day year fs n e fs' :
  ConvertDirectory ParseFloat parseTimeToGPS Base Join MkdirAll csvs files outputDir day year fs
  = (n, e, fs') ->
  (files = [] -> n = O /\ e = Some ErrNoCSVFiles /\ fs' = fs) /\
  (files <> [] -> e = None -> n = length files) /\
  (files <> [] -> forall e', e = Some e' ->
     exists f e'' fsn,
       nth_error files n = Some f /\
       convert_files ParseFloat parseTimeToGPS Base Join MkdirAll csvs (firstn n files) outputDir day year
         O fs = (n, None, fsn) /\
       ConvertCSVToLAS ParseFloat parseTimeToGPS Base Join MkdirAll csvs f outputDir day year fsn
       = (Some e'', fs') /\
       e' = ErrConvertFile (Base f) e'').
Proof.
  unfold ConvertDirectory. intros H. destruct files as [|f0 files0].
  { injection H as <- <- <-. split; [auto|split; intros Hc; contradiction]. }
  split; [discriminate|].
  destruct (convert_files_spec csvs (f0 :: files0) outputDir day year O fs n e fs' H) as [H1 H2].
  split; [intros _; exact H1|]. intros _ e' He.
  destruct (H2 e' He) as (k & f & e'' & fsk & Hn & Hk & Hpre & Hf & Hv). cbn in Hn. subst n.
  exists f, e'', fsk. auto.
Qed.
End ConverterProofs.


Lemma sample_ParseFloat_range s v : sample_ParseFloat s = Some v -> 0 <= v < 2 ^ 64.
Proof.
  unfold sample_ParseFloat.
  destruct (String.eqb s "1"); [intros [= <-]; lia|].
  destruct (String.eqb s "2"); [intros [= <-]; lia|discriminate].
Qed.

Lemma sample_parseTimeToGPS_range s v : sample_parseTimeToGPS s = Some v -> 0 <= v < 2 ^ 64.
Proof.
  unfold sample_parseTimeToGPS.
  destruct (String.eqb s "2025/Oct/01 09:30:02"); [intros [= <-]; lia|discriminate].
Qed.

Lemma ConvertCSVToLAS_decode_witness :
  fst (ConvertCSVToLAS sample_ParseFloat sample_parseTimeToGPS sample_Base sample_Join sample_MkdirAll
         sample_csvs "site/a.csv" "out" 290 2026 ∅) = None /\
  decode (snd (ConvertCSVToLAS sample_ParseFloat sample_parseTimeToGPS sample_Base sample_Join sample_MkdirAll
                 sample_csvs "site/a.csv" "out" 290 2026 ∅)) (sample_Join "out" "a.las")
  = inr (map (requantized (writer_of sample_csv_points)) sample_csv_points).
Proof.
  assert (Hcsv : sample_csvs "site/a.csv" = Some (sample_csv_header :: [sample_csv_row1; sample_csv_row2]))
    by (vm_compute; reflexivity).
  assert (Hcols : first_missing sample_csv_header required_columns = None)
    by (vm_compute; reflexivity).
  assert (Hps : Forall2 (fun r p => row_point sample_ParseFloat sample_parseTimeToGPS
                                      sample_csv_header r = inr p)
                  [sample_csv_row1; sample_csv_row2] sample_csv_points)
    by (repeat constructor; vm_compute; reflexivity).
  assert (Hne : [sample_csv_row1; sample_csv_row2] <> []) by discriminate.
  assert (Hlen : Z.of_nat (length [sample_csv_row1; sample_csv_row2]) < 2 ^ 32) by (cbn; lia).
  assert (Hname : lasName (sample_Base "site/a.csv") = Some "a.las"%string)
    by (vm_compute; reflexivity).
  exact (ConvertCSVToLAS_decode sample_ParseFloat sample_parseTimeToGPS sample_Base sample_Join sample_MkdirAll
           sample_csvs "site/a.csv" "out" 290 2026 ∅ sample_csv_header
           [sample_csv_row1; sample_csv_row2] sample_csv_points "a.las"
           sample_ParseFloat_range sample_parseTimeToGPS_range Hcsv Hcols Hps Hne Hlen Hname
           eq_refl).
Defined.

Lemma ConvertCSVToLAS_bad_row_witness :
  ConvertCSVToLAS sample_ParseFloat sample_parseTimeToGPS sample_Base sample_Join sample_MkdirAll
    sample_csvs "site/b.csv" "out" 290 2026 ∅
  = (Some (ErrInvalidValue 3 "CellN_m"), ∅).
Proof.
  assert (Hcsv : sample_csvs "site/b.csv"
                 = Some (sample_csv_header :: [sample_csv_row1] ++ sample_csv_bad :: [sample_csv_row2]))
    by (vm_compute; reflexivity).
  assert (Hcols : first_missing sample_csv_header required_columns = None)
    by (vm_compute; reflexivity).
  assert (Hpre : Forall (fun q => exists p, row_point sample_ParseFloat sample_parseTimeToGPS
                                              sample_csv_header q = inr p) [sample_csv_row1])
    by (constructor; [eexists; vm_compute; reflexivity|constructor]).
  assert (Hr : row_point sample_ParseFloat sample_parseTimeToGPS sample_csv_header sample_csv_bad
               = inl "CellN_m"%string) by (vm_compute; reflexivity).
  exact (ConvertCSVToLAS_bad_row sample_ParseFloat sample_parseTimeToGPS sample_Base sample_Join sample_MkdirAll
           sample_csvs "site/b.csv" "out" 290 2026 ∅ sample_csv_header [sample_csv_row1]
           sample_csv_bad [sample_csv_row2] "CellN_m" Hcsv Hcols Hpre Hr eq_refl).
Defined.

Lemma ConvertDirectory_result_witness :
  sample_dir_run = (1%nat, Some (ErrConvertFile "b.csv" (ErrInvalidValue 3 "CellN_m")),
                    snd sample_dir_run) /\
  exists f e'' fsn,
    nth_error ["site/a.csv"; "site/b.csv"] 1 = Some f /\
    convert_files sample_ParseFloat sample_parseTimeToGPS sample_Base sample_Join sample_MkdirAll sample_csvs
      (firstn 1 ["site/a.csv"; "site/b.csv"]) "out" 290 2026 O ∅ = (1%nat, None, fsn) /\
    ConvertCSVToLAS sample_ParseFloat sample_parseTimeToGPS sample_Base sample_Join sample_MkdirAll sample_csvs
      f "out" 290 2026 fsn = (Some e'', snd sample_dir_run) /\
    ErrConvertFile "b.csv" (ErrInvalidValue 3 "CellN_m") = ErrConvertFile (sample_Base f) e''.
Proof.
  assert (Hrun : sample_dir_run
                 = (1%nat, Some (ErrConvertFile "b.csv" (ErrInvalidValue 3 "CellN_m")),
                    snd sample_dir_run)) by (vm_compute; reflexivity).
  split; [exact Hrun|].
  destruct (ConvertDirectory_result sample_ParseFloat sample_parseTimeToGPS sample_Base sample_Join sample_MkdirAll
              sample_csvs ["site/a.csv"; "site/b.csv"] "out" 290 2026 ∅ _ _ _ Hrun)
    as (_ & _ & H3).
  exact (H3 ltac:(discriminate) _ eq_refl).
Defined.
